(** * The generic CRUD repository of [backend/app/crud.py]

    A shallow embedding of class [CRUD] (count, create, read, update,
    delete, select) over a model of the SQLModel/SQLAlchemy session it
    drives, followed by the properties of the repository. *)

From stdpp Require Import gmap strings list fin_maps.
From Stdlib Require Import ZArith Lia.

Local Open Scope Z_scope.

(** ** Python values *)

(** The scalar values an entity field, an identity or a filter entry holds. *)
Inductive val : Type :=
  | VNone
  | VBool (b : bool)
  | VInt (z : Z)
  | VStr (s : string).

#[global] Instance val_eq_dec : EqDecision val.
Proof. solve_decision. Defined.

(** A row of the table, the [__dict__] of an entity and the result of
    [model_dump()] are all maps from field name to value. *)
Abbreviation Row := (gmap string val).

(** Reading a field; an entity always carries every field of its model, so a
    name the map does not hold reads as [None]. *)
Definition field (r : Row) (f : string) : val := default VNone (r !! f).

(** ** The entity type bound to a repository *)

(** [self.model]: the schema the repository is generic in. [app.models] is
    not part of the sources, so the schema is a parameter of every
    definition: the names of the fields, the primary key, whether the store
    assigns the key when it is unset, and the row constraints of the table
    (NOT NULL, CHECK). *)
Record Model : Type := {
  fields : list string;
  primary_key : string;
  autoincrement : bool;
  constraints : Row -> bool
}.

(** An entity instance on the Python heap: its attributes and the identity
    key under which the session holds it ([None] while it is transient). *)
Record Entity : Type := {
  attrs : Row;
  key : option val
}.

Abbreviation loc := nat.

Definition getattr (o : Entity) (f : string) : val := field (attrs o) f.

Definition setattr (o : Entity) (f : string) (v : val) : Entity :=
  {| attrs := <[f := v]> (attrs o); key := key o |}.

(** [entity.model_dump()]: the dict of every field of the model. *)
Definition model_dump (m : Model) (o : Entity) : Row :=
  foldr (fun f d => <[f := getattr o f]> d) ∅ (fields m).

(** ** Statements and the session *)

(** A statement under construction: the equality predicates added by
    [.where(col == value)], and the window of [.offset()] and [.limit()]. *)
Record Query : Type := {
  q_where : list (string * val);
  q_offset : option Z;
  q_limit : option Z
}.

Inductive stmt : Type :=
  | SelectCount (q : Query)   (* select(func.count()).select_from(model) *)
  | Select (q : Query)        (* select(model) *)
  | Delete (q : Query).       (* delete(model) *)

(** The calls a repository issues on its session, in order. *)
Inductive call : Type :=
  | CGet (id : val)
  | CAdd (o : option loc)
  | CDelete (o : option loc)
  | CCommit
  | CRefresh (o : option loc)
  | CExec (s : stmt).

(** A mutation staged in the unit of work until the next flush. *)
Inductive stage : Type :=
  | SAdd (l : loc)
  | SDel (l : loc).

(** The session bound to a repository, together with what it reaches: the
    entity instances of the program, the table of the bound model as the open
    transaction sees it and as last committed, the key sequence of the table,
    the identity map, the staged mutations, and the calls received.

    The session is SQLAlchemy's, seen from one repository: one table, rows in
    insertion order (an UPDATE keeps the place of the row), a change of an
    instance reaching the table once [add] or [delete] has staged it, and
    instances expired by a commit or a rollback reloaded at once rather than
    on their next access. *)
Record Session : Type := {
  heap : list Entity;
  table : list Row;
  committed : list Row;
  seq : Z;
  identity_map : list (val * loc);
  staged : list stage;
  log : list call
}.

Definition set_heap (h : list Entity) (s : Session) : Session :=
  {| heap := h; table := table s; committed := committed s; seq := seq s;
     identity_map := identity_map s; staged := staged s; log := log s |}.

Definition set_table (t : list Row) (s : Session) : Session :=
  {| heap := heap s; table := t; committed := committed s; seq := seq s;
     identity_map := identity_map s; staged := staged s; log := log s |}.

Definition set_committed (t : list Row) (s : Session) : Session :=
  {| heap := heap s; table := table s; committed := t; seq := seq s;
     identity_map := identity_map s; staged := staged s; log := log s |}.

Definition set_seq (n : Z) (s : Session) : Session :=
  {| heap := heap s; table := table s; committed := committed s; seq := n;
     identity_map := identity_map s; staged := staged s; log := log s |}.

Definition set_identity_map (im : list (val * loc)) (s : Session) : Session :=
  {| heap := heap s; table := table s; committed := committed s; seq := seq s;
     identity_map := im; staged := staged s; log := log s |}.

Definition set_staged (st : list stage) (s : Session) : Session :=
  {| heap := heap s; table := table s; committed := committed s; seq := seq s;
     identity_map := identity_map s; staged := st; log := log s |}.

Definition set_log (lg : list call) (s : Session) : Session :=
  {| heap := heap s; table := table s; committed := committed s; seq := seq s;
     identity_map := identity_map s; staged := staged s; log := lg |}.

(** ** Exceptions and the monad of session programs *)

Inductive exc : Type :=
  | AttributeError          (* attribute access on None, or an unknown column *)
  | UnmappedInstanceError   (* session.add/delete/refresh(None) *)
  | InvalidRequestError     (* instance not persistent, or its row is gone *)
  | IntegrityError          (* key or row constraint violated at flush *)
  | StaleDataError          (* UPDATE matched no row *)
  | DataError.              (* negative OFFSET or LIMIT *)

Inductive res (A : Type) : Type :=
  | Ok (a : A)
  | Raise (e : exc).
Arguments Ok {A} a.
Arguments Raise {A} e.

Definition M (A : Type) : Type := Session -> Session * res A.

Definition ret {A} (a : A) : M A := fun s => (s, Ok a).
Definition raise {A} (e : exc) : M A := fun s => (s, Raise e).
Definition bind {A B} (c : M A) (k : A -> M B) : M B :=
  fun s => match c s with
           | (s', Ok a) => k a s'
           | (s', Raise e) => (s', Raise e)
           end.
Definition get_session : M Session := fun s => (s, Ok s).
Definition modify (f : Session -> Session) : M unit := fun s => (f s, Ok tt).

Declare Scope crud_scope.
Delimit Scope crud_scope with crud.
Notation "x <~ c1 ; c2" := (bind c1 (fun x => c2))
  (at level 90, c1 at next level, right associativity) : crud_scope.
Notation "c1 >> c2" := (bind c1 (fun _ => c2))
  (at level 90, right associativity) : crud_scope.
Local Open Scope crud_scope.

Definition emit (c : call) : M unit := modify (fun s => set_log (log s ++ [c]) s).

(** ** The table *)

Definition row_key (m : Model) (r : Row) : val := field r (primary_key m).

Definition find_row (m : Model) (k : val) (t : list Row) : option Row :=
  List.find (fun r => bool_decide (row_key m r = k)) t.

Definition has_key (m : Model) (k : val) (t : list Row) : bool :=
  bool_decide (is_Some (find_row m k t)).

(** [col == value] for every entry, conjoined; SQLAlchemy renders
    [col == None] as [col IS NULL], so the test is equality of values. *)
Definition matches (w : list (string * val)) (r : Row) : bool :=
  forallb (fun kv => bool_decide (field r kv.1 = kv.2)) w.

Definition replace_row (m : Model) (k : val) (r' : Row) (t : list Row) : list Row :=
  List.map (fun r => if bool_decide (row_key m r = k) then r' else r) t.

Definition remove_row (m : Model) (k : val) (t : list Row) : list Row :=
  List.filter (fun r => negb (bool_decide (row_key m r = k))) t.

(** ** The identity map *)

Definition imap_lookup (k : val) (im : list (val * loc)) : option loc :=
  snd <$> List.find (fun p => bool_decide (p.1 = k)) im.

Definition imap_remove (k : val) (im : list (val * loc)) : list (val * loc) :=
  List.filter (fun p => negb (bool_decide (p.1 = k))) im.

Definition imap_prune (m : Model) (t : list Row) (im : list (val * loc))
  : list (val * loc) :=
  List.filter (fun p => has_key m p.1 t) im.

(** ** The session: unit of work *)

(** The instance at a location. Every location a program holds is allocated;
    one outside the heap stands for no mapped instance. *)
Definition deref (l : loc) : M Entity :=
  fun s => match heap s !! l with
           | Some o => (s, Ok o)
           | None => (s, Raise UnmappedInstanceError)
           end.

Definition store (l : loc) (o : Entity) : M unit :=
  modify (fun s => set_heap (<[l := o]> (heap s)) s).

Definition alloc (o : Entity) : M loc :=
  fun s => (set_heap (heap s ++ [o]) s, Ok (length (heap s))).

(** The key an INSERT gives the row: the one the instance carries, or the next
    value of the sequence when it carries none and the store assigns keys. *)
Definition next_key (m : Model) (o : Entity) : M val :=
  match getattr o (primary_key m) with
  | VNone =>
      if autoincrement m
      then s <~ get_session; modify (set_seq (seq s + 1)) >> ret (VInt (seq s))
      else raise IntegrityError
  | v => ret v
  end.

(** INSERT of a pending instance; the instance becomes persistent under the
    key of its row. *)
Definition insert_row (m : Model) (l : loc) (o : Entity) : M unit :=
  id <~ next_key m o;
  s <~ get_session;
  let row := <[primary_key m := id]> (model_dump m o) in
  if has_key m id (table s) || negb (constraints m row)
  then raise IntegrityError
  else
    modify (set_table (table s ++ [row])) >>
    store l {| attrs := <[primary_key m := id]> (attrs o); key := Some id |} >>
    modify (fun s => set_identity_map ((id, l) :: identity_map s) s).

(** UPDATE of a persistent instance, addressed by the key it was loaded
    under; nothing is emitted when no column changed. A changed primary key
    moves the instance to the new key. *)
Definition update_row (m : Model) (l : loc) (o : Entity) (k : val) : M unit :=
  s <~ get_session;
  match find_row m k (table s) with
  | None => raise StaleDataError
  | Some old =>
      let row := model_dump m o in
      if bool_decide (row = old) then ret tt
      else
        let id := row_key m row in
        if bool_decide (id = VNone)
           || (negb (bool_decide (id = k)) && has_key m id (table s))
           || negb (constraints m row)
        then raise IntegrityError
        else
          modify (set_table (replace_row m k row (table s))) >>
          store l {| attrs := attrs o; key := Some id |} >>
          modify (fun s => set_identity_map
                             ((id, l) :: imap_remove k (identity_map s)) s)
  end.

(** DELETE of a persistent instance. *)
Definition delete_row (m : Model) (l : loc) (o : Entity) (k : val) : M unit :=
  modify (fun s => set_table (remove_row m k (table s)) s) >>
  store l {| attrs := attrs o; key := None |} >>
  modify (fun s => set_identity_map (imap_remove k (identity_map s)) s).

Definition flush_one (m : Model) (op : stage) : M unit :=
  match op with
  | SAdd l =>
      o <~ deref l;
      match key o with
      | None => insert_row m l o
      | Some k => update_row m l o k
      end
  | SDel l =>
      o <~ deref l;
      match key o with
      | None => ret tt
      | Some k => delete_row m l o k
      end
  end.

Fixpoint flush_ops (m : Model) (ops : list stage) : M unit :=
  match ops with
  | [] => ret tt
  | op :: rest => flush_one m op >> flush_ops m rest
  end.

(** Expiry: every instance the identity map holds takes the attributes of
    its row again (the session expires them and reloads on the next access;
    the reload is done at once here). *)
Definition reload (m : Model) (t : list Row) (h : list Entity) (p : val * loc)
  : list Entity :=
  match find_row m p.1 t, h !! p.2 with
  | Some r, Some o => <[p.2 := {| attrs := r; key := key o |}]> h
  | _, _ => h
  end.

Definition expire_all (m : Model) (s : Session) : Session :=
  set_heap (foldl (reload m (table s)) (heap s) (identity_map s)) s.

(** What a failed flush leaves: the transaction is rolled back to the last
    commit, the unit of work is emptied and the instances are expired. *)
Definition rollback (m : Model) (s : Session) : Session :=
  expire_all m
    (set_staged []
       (set_identity_map (imap_prune m (committed s) (identity_map s))
          (set_table (committed s) s))).

(** Flush: the staged mutations reach the table, in the order staged. *)
Definition flush (m : Model) : M unit :=
  fun s => match flush_ops m (staged s) s with
           | (s', Ok _) => (set_staged [] s', Ok tt)
           | (s', Raise e) => (rollback m s', Raise e)
           end.

(** The instance that stands for a row: the one the identity map holds for
    its key, or a new one. *)
Definition load (m : Model) (r : Row) : M loc :=
  s <~ get_session;
  match imap_lookup (row_key m r) (identity_map s) with
  | Some l => ret l
  | None =>
      l <~ alloc {| attrs := r; key := Some (row_key m r) |};
      modify (fun s => set_identity_map ((row_key m r, l) :: identity_map s) s) >>
      ret l
  end.

Fixpoint load_all (m : Model) (rows : list Row) : M (list loc) :=
  match rows with
  | [] => ret []
  | r :: rest => l <~ load m r; ls <~ load_all m rest; ret (l :: ls)
  end.

(** ** The session: the calls of the repository *)

(** [session.get(model, id)]: the identity map first, then the table. *)
Definition session_get (m : Model) (id : val) : M (option loc) :=
  emit (CGet id) >>
  s <~ get_session;
  match imap_lookup id (identity_map s) with
  | Some l => ret (Some l)
  | None =>
      flush m >>
      s <~ get_session;
      match find_row m id (table s) with
      | Some r => l <~ load m r; ret (Some l)
      | None => ret None
      end
  end.

(** [session.add(instance)] *)
Definition session_add (o : option loc) : M unit :=
  emit (CAdd o) >>
  match o with
  | None => raise UnmappedInstanceError
  | Some l => deref l >> modify (fun s => set_staged (staged s ++ [SAdd l]) s)
  end.

(** [session.delete(instance)] *)
Definition session_delete (o : option loc) : M unit :=
  emit (CDelete o) >>
  match o with
  | None => raise UnmappedInstanceError
  | Some l =>
      e <~ deref l;
      match key e with
      | None => raise InvalidRequestError
      | Some _ => modify (fun s => set_staged (staged s ++ [SDel l]) s)
      end
  end.

(** [session.commit()]: flush, make the transaction durable, let go of the
    instances whose rows are gone and expire the others. *)
Definition session_commit (m : Model) : M unit :=
  emit CCommit >>
  flush m >>
  modify (fun s => expire_all m
                     (set_identity_map (imap_prune m (table s) (identity_map s))
                        (set_committed (table s) s))).

(** [session.refresh(instance)]: reload the attributes from the row. *)
Definition session_refresh (m : Model) (o : option loc) : M unit :=
  emit (CRefresh o) >>
  match o with
  | None => raise UnmappedInstanceError
  | Some l =>
      flush m >>
      e <~ deref l;
      match key e with
      | None => raise InvalidRequestError
      | Some k =>
          s <~ get_session;
          match find_row m k (table s) with
          | None => raise InvalidRequestError
          | Some r => store l {| attrs := r; key := Some k |}
          end
      end
  end.

(** OFFSET then LIMIT; the store (PostgreSQL) rejects a negative bound. *)
Definition offset_rows (n : option Z) (rows : list Row) : M (list Row) :=
  match n with
  | None => ret rows
  | Some n => if bool_decide (n < 0) then raise DataError
              else ret (drop (Z.to_nat n) rows)
  end.

Definition limit_rows (n : option Z) (rows : list Row) : M (list Row) :=
  match n with
  | None => ret rows
  | Some n => if bool_decide (n < 0) then raise DataError
              else ret (take (Z.to_nat n) rows)
  end.

Definition window (q : Query) (rows : list Row) : M (list Row) :=
  rows <~ offset_rows (q_offset q) rows;
  limit_rows (q_limit q) rows.

(** What [session.exec(statement)] hands back. *)
Inductive result : Type :=
  | Scalars (ns : list Z)
  | Instances (ls : list loc)
  | NoRows.

(** [session.exec(statement)] *)
Definition session_exec (m : Model) (st : stmt) : M result :=
  emit (CExec st) >>
  flush m >>
  s <~ get_session;
  match st with
  | SelectCount q =>
      ret (Scalars [Z.of_nat (length (List.filter (matches (q_where q)) (table s)))])
  | Select q =>
      rows <~ window q (List.filter (matches (q_where q)) (table s));
      ls <~ load_all m rows;
      ret (Instances ls)
  | Delete q =>
      modify (set_table
                (List.filter (fun r => negb (matches (q_where q) r)) (table s))) >>
      ret NoRows
  end.

(** [.one()] *)
Definition one (r : result) : M Z :=
  match r with
  | Scalars [n] => ret n
  | _ => raise InvalidRequestError
  end.

(** [.all()] *)
Definition all (r : result) : M (list loc) :=
  match r with
  | Instances ls => ret ls
  | Scalars _ | NoRows => raise InvalidRequestError
  end.

(** ** SQLModel: [sqlmodel_update] *)

Definition set_attribute (l : loc) (f : string) (v : val) : M unit :=
  o <~ deref l; store l (setattr o f v).

(** The loop over the fields of [obj]: the value of [update] when it has the
    key (popped from it), the attribute of [obj] otherwise. *)
Fixpoint update_fields (self obj : loc) (keys : list string) (use_update : Row)
  : M Row :=
  match keys with
  | [] => ret use_update
  | key :: rest =>
      match use_update !! key with
      | Some value =>
          set_attribute self key value >>
          update_fields self obj rest (delete key use_update)
      | None =>
          o <~ deref obj;
          set_attribute self key (getattr o key) >>
          update_fields self obj rest use_update
      end
  end.

(** The loop over what is left of [update]. *)
Fixpoint update_remaining (m : Model) (self : loc) (items : list (string * val))
  : M unit :=
  match items with
  | [] => ret tt
  | (remaining_key, value) :: rest =>
      (if bool_decide (remaining_key ∈ fields m)
       then set_attribute self remaining_key value
       else ret tt) >>
      update_remaining m self rest
  end.

(** [self.sqlmodel_update(obj, update=update)] for a model instance [obj]. *)
Definition sqlmodel_update (m : Model) (self obj : loc) (update : Row) : M loc :=
  use_update <~ update_fields self obj (fields m) update;
  update_remaining m self (map_to_list use_update) >>
  ret self.

(** ** The repository *)

(** [CRUD(model, session)]: the model is a field; the session bound at
    construction is the state the operations run in. An argument a method
    declares optional is an [option], [None] when it is omitted. *)
Record CRUD : Type := { model : Model }.

Definition empty_query : Query :=
  {| q_where := []; q_offset := None; q_limit := None |}.

Definition stmt_where (query : Query) (col : string) (value : val) : Query :=
  {| q_where := q_where query ++ [(col, value)];
     q_offset := q_offset query; q_limit := q_limit query |}.

Definition stmt_offset (query : Query) (n : Z) : Query :=
  {| q_where := q_where query; q_offset := Some n; q_limit := q_limit query |}.

Definition stmt_limit (query : Query) (n : Z) : Query :=
  {| q_where := q_where query; q_offset := q_offset query; q_limit := Some n |}.

(** [getattr(self.model, key)]: the column of that name; a name that is not
    a field of the model is an attribute the class does not have. *)
Definition column (m : Model) (key : string) : M string :=
  if bool_decide (key ∈ fields m) then ret key else raise AttributeError.

(** [for key, value in where.items(): query = query.where(... == value)] *)
Fixpoint add_where (m : Model) (items : list (string * val)) (query : Query)
  : M Query :=
  match items with
  | [] => ret query
  | (key, value) :: rest =>
      col <~ column m key;
      add_where m rest (stmt_where query col value)
  end.

Definition count (self : CRUD) (where_ : option (list (string * val))) : M Z :=
  let where_ := default [] where_ in
  query <~ add_where (model self) where_ empty_query;
  r <~ session_exec (model self) (SelectCount query);
  one r.

Definition create (self : CRUD) (entity : loc) : M loc :=
  session_add (Some entity) >>
  session_commit (model self) >>
  session_refresh (model self) (Some entity) >>
  ret entity.

Definition read (self : CRUD) (id : val) : M (option loc) :=
  item <~ session_get (model self) id;
  ret item.

Definition update (self : CRUD) (id : val) (entity : loc) : M loc :=
  item <~ read self id;
  match item with
  | None => raise AttributeError          (* [item.sqlmodel_update] on None *)
  | Some this =>
      e <~ deref entity;
      sqlmodel_update (model self) this this (model_dump (model self) e) >>
      session_add item >>
      session_commit (model self) >>
      session_refresh (model self) item >>
      ret this
  end.

(** The acknowledgement [{"ok": True}]. *)
Definition ok_true : gmap string val := {[ "ok"%string := VBool true ]}.

Definition delete (self : CRUD) (id : val) (where_ : option (list (string * val)))
    (session : option Session) : M (gmap string val) :=
  let where_ := default [] where_ in
  (match id with
   | VNone =>
       query <~ add_where (model self) where_ empty_query;
       session_exec (model self) (Delete query) >>
       session_commit (model self)
   | _ =>
       item <~ read self id;
       session_delete item >>
       session_commit (model self)
   end) >>
  ret ok_true.

Definition select (self : CRUD) (where_ : option (list (string * val)))
    (skip : option Z) (limit : option Z) : M (option (list loc)) :=
  let skip := default 0 skip in
  let limit := default 100 limit in
  let where_ := default [] where_ in
  query <~ add_where (model self) where_ empty_query;
  let query := stmt_limit (stmt_offset query skip) limit in
  r <~ session_exec (model self) (Select query);
  results <~ all r;
  ret (match results with [] => None | _ :: _ => Some results end).

(** ** Well-formed models and sessions *)

(** The primary key is a field of the model, and no field is declared twice. *)
Definition model_ok (m : Model) : Prop :=
  primary_key m ∈ fields m ∧ NoDup (fields m).

(** Keys of a table are unique and not null. *)
Definition table_ok (m : Model) (t : list Row) : Prop :=
  NoDup (row_key m <$> t) ∧ Forall (fun r => row_key m r ≠ VNone) t.

(** Every instance the identity map holds is persistent under its key. *)
Definition keyed (s : Session) : Prop :=
  Forall (fun p : val * loc => key <$> (heap s !! p.2) = Some (Some p.1))
         (identity_map s).

(** Every instance the identity map holds is persistent under its key and
    carries the attributes of its row. *)
Definition synced (m : Model) (s : Session) : Prop :=
  Forall (fun p : val * loc =>
            key <$> (heap s !! p.2) = Some (Some p.1)
            ∧ attrs <$> (heap s !! p.2) = find_row m p.1 (table s))
         (identity_map s).

(** The state of a session between two calls of the repository: nothing is
    staged, the transaction holds what was committed, keys are unique and not
    null, and the identity map is in step with the table. *)
Definition wf (m : Model) (s : Session) : Prop :=
  staged s = []
  ∧ committed s = table s
  ∧ NoDup (row_key m <$> table s)
  ∧ Forall (fun r => row_key m r ≠ VNone) (table s)
  ∧ synced m s.

#[global] Instance wf_dec (m : Model) (s : Session) : Decision (wf m s).
Proof. unfold wf, synced. apply _. Defined.

#[global] Instance model_ok_dec (m : Model) : Decision (model_ok m).
Proof. unfold model_ok. apply _. Defined.

(** What a call leaves of the session it started in: the table, the
    committed table, the sequence and the unit of work are the same, and the
    instances that were there are unchanged. *)
Definition same_store (s s' : Session) : Prop :=
  table s' = table s /\ committed s' = committed s /\ seq s' = seq s
  /\ staged s' = staged s
  /\ forall l o, heap s !! l = Some o -> heap s' !! l = Some o.

(** The instances handed back stand for the rows, one for one and in order. *)
Definition stand_for (m : Model) (s : Session) (ls : list loc) (rows : list Row)
  : Prop :=
  Forall2 (fun l r => heap s !! l
                      = Some {| attrs := r; key := Some (row_key m r) |})
          ls rows.

(** The state a successful commit leaves, from the state its flush left. *)
Definition committed_state (m : Model) (s : Session) : Session :=
  expire_all m
    (set_identity_map (imap_prune m (table s) (identity_map s))
       (set_committed (table s) (set_staged [] s))).

(** A program that never raises the exception [e0]. *)
Definition avoids {A} (e0 : exc) (c : M A) : Prop :=
  forall s s' e, c s = (s', Raise e) -> e <> e0.

(** Every key of a filter names a field of the model. *)
Definition known_keys (m : Model) (w : list (string * val)) : Prop :=
  Forall (fun kv => kv.1 ∈ fields m) w.

(** ** A concrete model and concrete sessions *)

(** Modelled from the spec: [app.models.Item] is not part of the sources. An
    entity with one identity field assigned by the store on creation, and
    named data fields of which the title and the owner are required. *)
Definition Item : Model :=
  {| fields := ["id"; "title"; "description"; "owner_id"]%string;
     primary_key := "id"%string;
     autoincrement := true;
     constraints := fun r =>
       negb (bool_decide (field r "title"%string = VNone))
       && negb (bool_decide (field r "owner_id"%string = VNone)) |}.

(** [Item(id=.., title=.., description=.., owner_id=..)], not yet in any
    session. *)
Definition item (id title description owner : val) : Entity :=
  {| attrs := {[ "id"%string := id; "title"%string := title;
                 "description"%string := description;
                 "owner_id"%string := owner ]};
     key := None |}.

Definition items : CRUD := {| model := Item |}.

(** A session over an empty table, with five instances built by the caller:
    three to create, one that carries another identity, and one that carries
    the identity of the first with its description unset. *)
Definition session0 : Session :=
  {| heap := [ item VNone (VStr "Item title 1") (VStr "first") (VInt 7);
               item VNone (VStr "Item title 2") VNone (VInt 7);
               item VNone (VStr "Item title 3") VNone (VInt 7);
               item (VInt 5) (VStr "Original title updated") VNone (VInt 7);
               item (VInt 1) (VStr "Item title 1 updated") VNone (VInt 7) ];
     table := []; committed := []; seq := 1;
     identity_map := []; staged := []; log := [] |}.

(** The session after the first three instances were created, in order. *)
Definition session3 : Session :=
  ((create items 0%nat >> create items 1%nat >> create items 2%nat) session0).1.

(** ** The helpers for users *)

(** [.first()]: the first row of the result, or [None]. *)
Definition first (r : result) : M (option loc) :=
  match r with
  | Instances ls => ret (head ls)
  | Scalars _ | NoRows => raise InvalidRequestError
  end.

(** [user_in.model_dump(exclude_unset=True)]: the fields that were given a
    value. An instance of an input model holds in [attrs] the fields that
    were set when it was built or assigned since, and no other. *)
Definition model_dump_exclude_unset (o : Entity) : Row := attrs o.

(** The loop of [sqlmodel_update] over a dict: every entry whose key is a
    field of the model of [self] is assigned, the others are passed over. *)
Fixpoint update_from_items (m : Model) (self : loc) (items : list (string * val))
  : M unit :=
  match items with
  | [] => ret tt
  | (key, value) :: rest =>
      (if bool_decide (key ∈ fields m)
       then set_attribute self key value
       else ret tt) >>
      update_from_items m self rest
  end.

(** [self.sqlmodel_update(obj, update=update)] for a dict [obj]: the entries
    of [{**obj, **update}], those of [update] first. *)
Definition sqlmodel_update_dict (m : Model) (self : loc) (obj update : Row)
  : M loc :=
  let use_update := update in
  update_from_items m self (map_to_list (use_update ∪ obj)) >>
  ret self.

Section Users.

(** [app.models.User] and the two functions of [app.core.security] are
    not part of the sources: the model of the users table, the hash of a
    password and the check of a password against a hash are parameters. *)
Variable User : Model.
Variable get_password_hash : val -> val.
Variable verify_password : val -> val -> bool.

Definition get_user_by_email (email : val) : M (option loc) :=
  col <~ column User "email";
  let statement := stmt_where empty_query col email in
  r <~ session_exec User (Select statement);
  session_user <~ first r;
  ret session_user.

Definition authenticate (email password : val) : M (option loc) :=
  db_user <~ get_user_by_email email;
  match db_user with
  | None => ret None
  | Some user =>
      u <~ deref user;
      if negb (verify_password password (getattr u "hashed_password"))
      then ret None
      else ret db_user
  end.

Definition update_user (db_user : loc) (user_in : loc) : M loc :=
  ui <~ deref user_in;
  let user_data := model_dump_exclude_unset ui in
  let extra_data : Row :=
    match user_data !! "password"%string with
    | Some password =>
        {[ "hashed_password"%string := get_password_hash password ]}
    | None => ∅
    end in
  sqlmodel_update_dict User db_user user_data extra_data >>
  session_add (Some db_user) >>
  session_commit User >>
  session_refresh User (Some db_user) >>
  ret db_user.

End Users.

(** ** A concrete users table *)

(** Modelled from the spec: [app.models.User] is not part of the sources. A
    user has an identity assigned by the store, the email and the hashed
    password the helpers read, and a name; email and hash are required. *)
Definition UserModel : Model :=
  {| fields := ["id"; "email"; "hashed_password"; "full_name"]%string;
     primary_key := "id"%string;
     autoincrement := true;
     constraints := fun r =>
       negb (bool_decide (field r "email"%string = VNone))
       && negb (bool_decide (field r "hashed_password"%string = VNone)) |}.

(** Modelled from the spec: [app.core.security] is not part of the sources.
    A stand-in for the password hash and its check: the hash marks the
    password, and a password is verified by hashing it again. *)
Definition mark_hash (password : val) : val :=
  match password with
  | VStr p => VStr ("hashed:" ++ p)
  | _ => VNone
  end.

Definition mark_verify (password hashed : val) : bool :=
  bool_decide (mark_hash password = hashed)
  && negb (bool_decide (hashed = VNone)).

Definition user_row (id email hashed full_name : val) : Row :=
  {[ "id"%string := id; "email"%string := email;
     "hashed_password"%string := hashed; "full_name"%string := full_name ]}.

(** A session over two stored users, the first of them loaded, and an input
    that sets a new password and a new name and nothing else. *)
Definition users0 : Session :=
  {| heap := [ {| attrs := user_row (VInt 1) (VStr "ann@example.com")
                             (VStr "hashed:old") (VStr "Ann");
                  key := Some (VInt 1) |};
               {| attrs := {[ "password"%string := VStr "s3cret";
                              "full_name"%string := VStr "Ann B" ]};
                  key := None |} ];
     table := [ user_row (VInt 1) (VStr "ann@example.com")
                  (VStr "hashed:old") (VStr "Ann");
                user_row (VInt 2) (VStr "bob@example.com")
                  (VStr "hashed:pw") VNone ];
     committed := [ user_row (VInt 1) (VStr "ann@example.com")
                      (VStr "hashed:old") (VStr "Ann");
                    user_row (VInt 2) (VStr "bob@example.com")
                      (VStr "hashed:pw") VNone ];
     seq := 3;
     identity_map := [(VInt 1, 0%nat)]; staged := []; log := [] |}.

(** * Properties *)

(** ** The monad *)

Lemma bind_ok {A B} (c : M A) (k : A -> M B) s s' a :
  c s = (s', Ok a) -> bind c k s = k a s'.
Proof. intros H. unfold bind. by rewrite H. Qed.

Lemma bind_raise {A B} (c : M A) (k : A -> M B) s s' e :
  c s = (s', Raise e) -> bind c k s = (s', Raise e).
Proof. intros H. unfold bind. by rewrite H. Qed.

Lemma bind_inv_ok {A B} (c : M A) (k : A -> M B) s s2 b :
  bind c k s = (s2, Ok b) ->
  exists s1 a, c s = (s1, Ok a) /\ k a s1 = (s2, Ok b).
Proof.
  unfold bind. destruct (c s) as [s1 [a|e]]; [eauto | discriminate].
Qed.

(** ** The table *)

Lemma find_row_key m k t r : find_row m k t = Some r -> row_key m r = k.
Proof.
  unfold find_row. intros H. apply find_some in H as [_ H].
  by apply bool_decide_eq_true in H.
Qed.

Lemma find_row_In m k t r : find_row m k t = Some r -> In r t.
Proof. unfold find_row. intros H. by apply find_some in H as [H _]. Qed.

Lemma find_row_None m k t :
  find_row m k t = None <-> forall r, In r t -> row_key m r <> k.
Proof.
  unfold find_row. split.
  - intros H r Hr Hk. eapply find_none in H; [|exact Hr].
    apply bool_decide_eq_false in H. done.
  - intros H. destruct (find _ t) as [r|] eqn:E; [|done].
    apply find_some in E as [Hr Hk]. apply bool_decide_eq_true in Hk.
    by destruct (H r Hr).
Qed.

Lemma has_key_false m k t : has_key m k t = false <-> find_row m k t = None.
Proof.
  unfold has_key. rewrite bool_decide_eq_false.
  destruct (find_row m k t) as [r|]; split; intros H; try done.
  - destruct H. eauto.
Qed.

Lemma find_row_unique m t r :
  NoDup (row_key m <$> t) -> In r t -> find_row m (row_key m r) t = Some r.
Proof.
  induction t as [|r0 t IH]; [done|].
  rewrite fmap_cons, NoDup_cons. intros [Hn Hd] [->|Hin].
  - unfold find_row. simpl. by rewrite bool_decide_eq_true_2.
  - unfold find_row. simpl. rewrite bool_decide_eq_false_2; [by apply IH|].
    intros E. apply Hn. rewrite E. apply list_elem_of_fmap.
    exists r. split; [done|]. by apply list_elem_of_In.
Qed.

(** ** The session *)

(** Unfolding the plumbing of the monad and the record updates. *)
Ltac run :=
  cbv beta delta [bind ret raise get_session modify emit alloc store deref];
  cbn beta iota delta
    [fst snd heap table committed seq identity_map staged log
     set_heap set_table set_committed set_seq set_identity_map set_staged
     set_log].

Lemma set_staged_nil s : staged s = [] -> set_staged [] s = s.
Proof. destruct s; simpl; by intros ->. Qed.

Lemma flush_clean m s : staged s = [] -> flush m s = (s, Ok tt).
Proof.
  intros H. unfold flush. rewrite H. simpl. unfold ret.
  by rewrite set_staged_nil.
Qed.

Lemma imap_lookup_Some k im l :
  imap_lookup k im = Some l -> In (k, l) im.
Proof.
  unfold imap_lookup. destruct (find _ im) as [[k' l']|] eqn:E; [|done].
  simpl. intros [= ->]. apply find_some in E as [Hin Hk].
  apply bool_decide_eq_true in Hk. simpl in Hk. by subst.
Qed.

Lemma synced_lookup m s k l :
  synced m s -> imap_lookup k (identity_map s) = Some l ->
  exists o, heap s !! l = Some o /\ key o = Some k
            /\ find_row m k (table s) = Some (attrs o).
Proof.
  intros Hs Hl. apply imap_lookup_Some in Hl.
  unfold synced in Hs. rewrite Forall_forall in Hs.
  apply list_elem_of_In, Hs in Hl. simpl in Hl. destruct Hl as [Hk Ha].
  destruct (heap s !! l) as [o|]; [|done]. simpl in *.
  exists o. split; [done|]. split; congruence.
Qed.

Lemma session_get_absent m s id :
  wf m s -> find_row m id (table s) = None ->
  session_get m id s = (set_log (log s ++ [CGet id]) s, Ok None).
Proof.
  intros (Hst & _ & _ & _ & Hsy) Hf. unfold session_get.
  erewrite bind_ok by reflexivity. erewrite bind_ok by reflexivity.
  simpl. destruct (imap_lookup id (identity_map s)) as [l|] eqn:E.
  - destruct (synced_lookup _ _ _ _ Hsy E) as (o & _ & _ & Hr). congruence.
  - erewrite bind_ok by (apply flush_clean; exact Hst).
    erewrite bind_ok by reflexivity. simpl. by rewrite Hf.
Qed.

Lemma session_get_present m s id r :
  wf m s -> find_row m id (table s) = Some r ->
  exists s' l,
    session_get m id s = (s', Ok (Some l))
    /\ heap s' !! l = Some {| attrs := r; key := Some id |}
    /\ same_store s s'
    /\ log s' = log s ++ [CGet id]
    /\ wf m s'.
Proof.
  intros Hwf Hf. pose proof Hwf as (Hst & Hc & Hk & Hn & Hsy).
  unfold session_get.
  erewrite bind_ok by reflexivity. erewrite bind_ok by reflexivity.
  simpl. destruct (imap_lookup id (identity_map s)) as [l|] eqn:E.
  - destruct (synced_lookup _ _ _ _ Hsy E) as (o & Ho & Hko & Hr).
    eexists _, l. split; [reflexivity|]. simpl.
    split; [|split; [|split]]; try done.
    + rewrite Ho. f_equal. destruct o; simpl in *. congruence.
  - erewrite bind_ok by (apply flush_clean; exact Hst).
    erewrite bind_ok by reflexivity. simpl. rewrite Hf.
    unfold load. run. rewrite (find_row_key _ _ _ _ Hf), E.
    eexists _, _. split; [reflexivity|]. simpl.
    split; [|split; [|split]]; try done.
    + by rewrite lookup_app_r, Nat.sub_diag.
    + repeat split; try done. intros l o Ho. run.
      by rewrite lookup_app_l by (by eapply lookup_lt_Some).
    + repeat split; try done. unfold synced. simpl. constructor.
      * simpl. rewrite lookup_app_r, Nat.sub_diag by done. simpl. done.
      * unfold synced in Hsy. eapply Forall_impl; [exact Hsy|].
        intros [k l] [H1 H2]. simpl in *.
        destruct (heap s !! l) as [o|] eqn:Ho; [|done].
        rewrite lookup_app_l by (by eapply lookup_lt_Some).
        by rewrite Ho.
Qed.

(** ** The concrete sessions are well formed *)

Lemma Item_ok : model_ok Item.
Proof. refine (bool_decide_unpack _ _). vm_compute. exact I. Qed.

Lemma wf_session0 : wf Item session0.
Proof. refine (bool_decide_unpack _ _). vm_compute. exact I. Qed.

Lemma wf_session3 : wf Item session3.
Proof. refine (bool_decide_unpack _ _). vm_compute. exact I. Qed.

(** ** [read] *)

Lemma read_absent self s id :
  wf (model self) s -> find_row (model self) id (table s) = None ->
  read self id s = (set_log (log s ++ [CGet id]) s, Ok None).
Proof.
  intros Hwf Hf. unfold read.
  by erewrite bind_ok by (by apply session_get_absent).
Qed.

Lemma read_present self s id r :
  wf (model self) s -> find_row (model self) id (table s) = Some r ->
  exists s' l,
    read self id s = (s', Ok (Some l))
    /\ heap s' !! l = Some {| attrs := r; key := Some id |}
    /\ same_store s s'
    /\ log s' = log s ++ [CGet id]
    /\ wf (model self) s'.
Proof.
  intros Hwf Hf.
  destruct (session_get_present _ _ _ _ Hwf Hf) as (s' & l & Hg & H).
  exists s', l. split; [|exact H].
  unfold read. by erewrite bind_ok by exact Hg.
Qed.

(** C8. [read(id)] is one key lookup on the session. For an id that no row
    of the table carries it returns the absent result [None]: it raises
    nothing, builds no entity and leaves the session as it was but for the
    call recorded. For an id that a row carries it returns an instance
    holding exactly that row, persistent under that id. *)
Theorem read_returns_row_or_absent (self : CRUD) (s : Session) (id : val) :
  wf (model self) s ->
  (find_row (model self) id (table s) = None ->
     read self id s = (set_log (log s ++ [CGet id]) s, Ok None))
  /\ (forall r, find_row (model self) id (table s) = Some r ->
        exists s' l,
          read self id s = (s', Ok (Some l))
          /\ heap s' !! l = Some {| attrs := r; key := Some id |}
          /\ same_store s s'
          /\ log s' = log s ++ [CGet id]).
Proof.
  intros Hwf. split.
  - by apply read_absent.
  - intros r Hf.
    destruct (read_present _ _ _ _ Hwf Hf) as (s' & l & H1 & H2 & H3 & H4 & _).
    by exists s', l.
Qed.

Lemma read_returns_row_or_absent_witness :
  wf (model items) session3
  /\ read items (VInt 9) session3
     = (set_log (log session3 ++ [CGet (VInt 9)]) session3, Ok None)
  /\ exists s' l,
       read items (VInt 2) session3 = (s', Ok (Some l))
       /\ heap s' !! l
          = Some {| attrs := model_dump Item
                      (item (VInt 2) (VStr "Item title 2") VNone (VInt 7));
                    key := Some (VInt 2) |}.
Proof.
  pose proof (read_returns_row_or_absent items session3 (VInt 9) wf_session3)
    as [Habs _].
  pose proof (read_returns_row_or_absent items session3 (VInt 2) wf_session3)
    as [_ Hpres].
  split; [exact wf_session3|]. split.
  - apply Habs. vm_compute. reflexivity.
  - destruct (Hpres (model_dump Item
                       (item (VInt 2) (VStr "Item title 2") VNone (VInt 7))))
      as (s' & l & H1 & H2 & _).
    + vm_compute. reflexivity.
    + exists s', l. split; assumption.
Defined.

(** ** Which exceptions the session raises *)

Lemma avoids_bind {A B} e0 (c : M A) (k : A -> M B) :
  avoids e0 c -> (forall a, avoids e0 (k a)) -> avoids e0 (bind c k).
Proof.
  intros Hc Hk s s' e. unfold bind.
  destruct (c s) as [s1 [a|e1]] eqn:E.
  - apply Hk.
  - intros [= <- <-]. by eapply Hc.
Qed.

Lemma avoids_ret {A} e0 (a : A) : avoids e0 (ret a).
Proof. by intros s s' e. Qed.

Lemma avoids_modify e0 f : avoids e0 (modify f).
Proof. by intros s s' e. Qed.

Lemma avoids_get_session e0 : avoids e0 get_session.
Proof. by intros s s' e. Qed.

Lemma avoids_emit e0 c : avoids e0 (emit c).
Proof. by intros s s' e. Qed.

Lemma avoids_raise {A} e0 e1 : e1 <> e0 -> avoids e0 (@raise A e1).
Proof. intros H s s' e [= <- <-]. done. Qed.

Lemma avoids_deref l : avoids AttributeError (deref l).
Proof.
  intros s s' e. unfold deref. destruct (heap s !! l); [done|].
  by intros [= <- <-].
Qed.

Lemma avoids_store e0 l o : avoids e0 (store l o).
Proof. apply avoids_modify. Qed.

(** One step of the proof that a program avoids an exception: through the
    binds, into the branches. *)
Ltac avoid_step :=
  first
    [ apply avoids_ret | apply avoids_modify | apply avoids_get_session
    | apply avoids_emit | apply avoids_deref | apply avoids_store
    | apply avoids_raise; discriminate
    | apply avoids_bind; [|intros ?]
    | match goal with
      | |- avoids _ (match ?x with _ => _ end) => destruct x
      end ].

Lemma avoids_flush_one m op : avoids AttributeError (flush_one m op).
Proof.
  destruct op; unfold flush_one, insert_row, update_row, delete_row, next_key;
    repeat avoid_step.
Qed.

Lemma avoids_flush_ops m ops : avoids AttributeError (flush_ops m ops).
Proof.
  induction ops as [|op ops IH]; simpl; [apply avoids_ret|].
  apply avoids_bind; [apply avoids_flush_one | by intros].
Qed.

Lemma avoids_flush m : avoids AttributeError (flush m).
Proof.
  intros s s' e. unfold flush.
  destruct (flush_ops m (staged s) s) as [s1 [a|e1]] eqn:E; [done|].
  intros [= <- <-]. by eapply avoids_flush_ops.
Qed.

Lemma avoids_session_add o : avoids AttributeError (session_add o).
Proof. unfold session_add. repeat avoid_step. Qed.

Lemma avoids_session_commit m : avoids AttributeError (session_commit m).
Proof.
  unfold session_commit.
  apply avoids_bind; [apply avoids_emit|intros _].
  apply avoids_bind; [apply avoids_flush|intros _]. apply avoids_modify.
Qed.

Lemma avoids_session_refresh m o : avoids AttributeError (session_refresh m o).
Proof.
  unfold session_refresh. apply avoids_bind; [apply avoids_emit|intros _].
  destruct o; [|by apply avoids_raise].
  apply avoids_bind; [apply avoids_flush|intros _]. repeat avoid_step.
Qed.

Lemma avoids_set_attribute l f v : avoids AttributeError (set_attribute l f v).
Proof. unfold set_attribute. repeat avoid_step. Qed.

Lemma avoids_update_fields self obj keys : forall d,
  avoids AttributeError (update_fields self obj keys d).
Proof.
  induction keys as [|k keys IH]; intros d; simpl; [apply avoids_ret|].
  destruct (d !! k).
  - apply avoids_bind; [apply avoids_set_attribute | intros _; apply IH].
  - apply avoids_bind; [apply avoids_deref | intros o].
    apply avoids_bind; [apply avoids_set_attribute | intros _; apply IH].
Qed.

Lemma avoids_update_remaining m self items :
  avoids AttributeError (update_remaining m self items).
Proof.
  induction items as [|[k v] items IH]; simpl; [apply avoids_ret|].
  apply avoids_bind; [|by intros].
  destruct (bool_decide _); [apply avoids_set_attribute | apply avoids_ret].
Qed.

Lemma avoids_sqlmodel_update m self obj d :
  avoids AttributeError (sqlmodel_update m self obj d).
Proof.
  unfold sqlmodel_update.
  apply avoids_bind; [apply avoids_update_fields | intros d'].
  apply avoids_bind; [apply avoids_update_remaining | intros _].
  apply avoids_ret.
Qed.

(** ** [update] and [delete] of an id that is not in the table *)

(** C4. [update(id, e2)] of an id that no row carries raises (the attribute
    access on the [None] that the load returned); no row is created or
    changed, nothing is staged or committed, and the only trace on the
    session is the load. The exception is raised in no other case, so it
    tells the absence from every failure of the store. *)
Theorem update_absent_id_raises (self : CRUD) (s : Session) (id : val)
    (entity : loc) :
  wf (model self) s ->
  (find_row (model self) id (table s) = None ->
     update self id entity s
     = (set_log (log s ++ [CGet id]) s, Raise AttributeError))
  /\ (forall s', update self id entity s = (s', Raise AttributeError) ->
                 find_row (model self) id (table s) = None).
Proof.
  intros Hwf. split.
  - intros Hf. unfold update.
    by erewrite bind_ok by (by apply read_absent).
  - intros s' Hu.
    destruct (find_row (model self) id (table s)) as [r|] eqn:Hf; [|done].
    exfalso.
    destruct (read_present self s id r Hwf Hf) as (s1 & l & Hread & _).
    unfold update in Hu. erewrite bind_ok in Hu by exact Hread.
    cbn beta iota in Hu. revert Hu.
    match goal with
    | |- ?c s1 = _ -> _ =>
        assert (Hav : avoids AttributeError c); [|intros Hu; by eapply Hav]
    end.
    apply avoids_bind; [apply avoids_deref | intros e].
    apply avoids_bind; [apply avoids_sqlmodel_update | intros _].
    apply avoids_bind; [apply avoids_session_add | intros _].
    apply avoids_bind; [apply avoids_session_commit | intros _].
    apply avoids_bind; [apply avoids_session_refresh | intros _].
    apply avoids_ret.
Qed.

Lemma update_absent_id_raises_witness :
  (update items (VInt 9) 3%nat session3).2 = Raise AttributeError
  /\ table (update items (VInt 9) 3%nat session3).1 = table session3
  /\ committed (update items (VInt 9) 3%nat session3).1 = committed session3.
Proof.
  destruct (update_absent_id_raises items session3 (VInt 9) 3%nat wf_session3)
    as [H _].
  rewrite H by (vm_compute; reflexivity). repeat split.
Defined.

(** C3, as the code has it. [delete(id)] of an id that no row carries does
    not fail at the load: the load returns [None], [session.delete(None)] is
    then called, and it is that call which raises. No row is removed and
    nothing is committed. *)
Theorem delete_absent_id_raises_in_session_delete (self : CRUD) (s : Session)
    (id : val) (where_ : option (list (string * val)))
    (session : option Session) :
  wf (model self) s ->
  id <> VNone ->
  find_row (model self) id (table s) = None ->
  read self id s = (set_log (log s ++ [CGet id]) s, Ok None)
  /\ delete self id where_ session s
     = (set_log (log s ++ [CGet id; CDelete None]) s,
        Raise UnmappedInstanceError).
Proof.
  intros Hwf Hid Hf. split; [by apply read_absent|].
  unfold delete.
  assert (Hd : (item <~ read self id;
                session_delete item >> session_commit (model self)) s
               = (set_log (log s ++ [CGet id; CDelete None]) s,
                  Raise UnmappedInstanceError)).
  { erewrite bind_ok by (by apply read_absent).
    unfold session_delete. run. by rewrite <- app_assoc. }
  destruct id; try done; by erewrite bind_raise by exact Hd.
Qed.

Lemma delete_absent_id_raises_in_session_delete_witness :
  delete items (VInt 9) None None session3
  = (set_log (log session3 ++ [CGet (VInt 9); CDelete None]) session3,
     Raise UnmappedInstanceError).
Proof.
  apply (delete_absent_id_raises_in_session_delete items session3 (VInt 9)
           None None wf_session3).
  - discriminate.
  - vm_compute. reflexivity.
Defined.

(** C3, as stated, fails: on a table without the id 9 the load does not
    raise, and a delete is issued on the session. *)
Lemma delete_fails_at_load_counterexample :
  ~ (exists s' e, read items (VInt 9) session3 = (s', Raise e))
  /\ ~ (forall o, ~ In (CDelete o)
                     (log (delete items (VInt 9) None None session3).1)).
Proof.
  split.
  - intros (s' & e & Hr). vm_compute in Hr. discriminate Hr.
  - intros H. apply (H None). vm_compute. tauto.
Qed.


(** ** Loading rows *)

Lemma same_store_refl s : same_store s s.
Proof. by repeat split. Qed.

Lemma same_store_trans s1 s2 s3 :
  same_store s1 s2 -> same_store s2 s3 -> same_store s1 s3.
Proof.
  intros (A1 & A2 & A3 & A4 & A5) (B1 & B2 & B3 & B4 & B5).
  repeat split; try congruence. auto.
Qed.

Lemma load_spec m s r :
  wf m s -> In r (table s) ->
  exists s' l,
    load m r s = (s', Ok l)
    /\ heap s' !! l = Some {| attrs := r; key := Some (row_key m r) |}
    /\ same_store s s'
    /\ log s' = log s
    /\ wf m s'.
Proof.
  intros Hwf Hin. pose proof Hwf as (Hst & Hc & Hk & Hn & Hsy).
  unfold load. run.
  destruct (imap_lookup (row_key m r) (identity_map s)) as [l|] eqn:E.
  - destruct (synced_lookup _ _ _ _ Hsy E) as (o & Ho & Hko & Hr).
    rewrite (find_row_unique _ _ _ Hk Hin) in Hr.
    exists s, l. split; [done|]. split; [|by auto using same_store_refl].
    rewrite Ho. f_equal. destruct o; simpl in *. congruence.
  - eexists _, _. split; [reflexivity|]. run.
    split; [by rewrite lookup_app_r, Nat.sub_diag|].
    split; [|split; [done|]].
    + repeat split; try done. intros l o Ho. run.
      by rewrite lookup_app_l by (by eapply lookup_lt_Some).
    + repeat split; try done. unfold synced. run. constructor.
      * simpl. rewrite lookup_app_r, Nat.sub_diag by done. simpl.
        by rewrite (find_row_unique _ _ _ Hk Hin).
      * unfold synced in Hsy. eapply Forall_impl; [exact Hsy|].
        intros [k l] [H1 H2]. simpl in *.
        destruct (heap s !! l) as [o|] eqn:Ho; [|done].
        rewrite lookup_app_l by (by eapply lookup_lt_Some).
        by rewrite Ho.
Qed.

Lemma load_all_spec m rows : forall s,
  wf m s -> Forall (fun r => In r (table s)) rows ->
  exists s' ls,
    load_all m rows s = (s', Ok ls)
    /\ stand_for m s' ls rows
    /\ same_store s s'
    /\ log s' = log s
    /\ wf m s'.
Proof.
  induction rows as [|r rows IH]; intros s Hwf Hin.
  - exists s, []. split; [done|]. split; [constructor|].
    split; [apply same_store_refl|]. by split.
  - apply Forall_cons in Hin as [Hr Hrows].
    destruct (load_spec m s r Hwf Hr) as (s1 & l & Hl & Hh & Hss & Hlog & Hwf1).
    destruct (IH s1 Hwf1) as (s2 & ls & Hls & Hst & Hss2 & Hlog2 & Hwf2).
    { destruct Hss as (Ht & _). by rewrite Ht. }
    exists s2, (l :: ls). simpl.
    erewrite bind_ok by exact Hl. erewrite bind_ok by exact Hls.
    split; [done|]. split; [|split; [|split]].
    + constructor; [|done]. by apply Hss2.
    + by eapply same_store_trans.
    + congruence.
    + done.
Qed.

(** ** Building and running statements *)

Lemma add_where_known m w : forall q s,
  known_keys m w ->
  add_where m w q s
  = (s, Ok {| q_where := q_where q ++ w;
              q_offset := q_offset q; q_limit := q_limit q |}).
Proof.
  induction w as [|[k v] w IH]; intros q s Hk.
  - simpl. rewrite app_nil_r. by destruct q.
  - apply Forall_cons in Hk as [Hk Hw]. simpl in Hk. simpl.
    unfold column. rewrite bool_decide_eq_true_2 by done. run.
    rewrite IH by done. simpl. by rewrite <- app_assoc.
Qed.

Lemma add_where_unknown m w : forall q s,
  ~ known_keys m w -> add_where m w q s = (s, Raise AttributeError).
Proof.
  induction w as [|[k v] w IH]; intros q s Hk.
  - destruct Hk. constructor.
  - simpl. unfold column. destruct (decide (k ∈ fields m)) as [Hin|Hin].
    + rewrite bool_decide_eq_true_2 by done. run. apply IH.
      intros Hw. apply Hk. by constructor.
    + by rewrite bool_decide_eq_false_2 by done.
Qed.

Lemma window_nonneg w skip limit rows s :
  0 <= skip -> 0 <= limit ->
  window {| q_where := w; q_offset := Some skip; q_limit := Some limit |} rows s
  = (s, Ok (take (Z.to_nat limit) (drop (Z.to_nat skip) rows))).
Proof.
  intros Hs Hl. unfold window, offset_rows, limit_rows. simpl.
  rewrite !bool_decide_eq_false_2 by lia. run.
  by rewrite ?bool_decide_eq_false_2 by lia.
Qed.

Lemma In_take {A} n (l : list A) x : In x (take n l) -> In x l.
Proof.
  rewrite <- !list_elem_of_In. intros H.
  apply list_elem_of_lookup in H as [i H]. apply lookup_take_Some in H as [H _].
  by eapply list_elem_of_lookup_2.
Qed.

Lemma In_drop {A} n (l : list A) x : In x (drop n l) -> In x l.
Proof.
  rewrite <- !list_elem_of_In. intros H.
  apply list_elem_of_lookup in H as [i H]. rewrite lookup_drop in H.
  by eapply list_elem_of_lookup_2.
Qed.

(** ** [select] *)

(** The rows [select] is to hand back: the filter, then the offset, then the
    cap, over the table in its order. *)
Lemma select_run self s w skip limit :
  wf (model self) s ->
  known_keys (model self) w ->
  0 <= skip -> 0 <= limit ->
  exists s' ls,
    select self (Some w) (Some skip) (Some limit) s
    = (s', Ok (match ls with [] => None | _ :: _ => Some ls end))
    /\ stand_for (model self) s' ls
         (take (Z.to_nat limit)
            (drop (Z.to_nat skip) (List.filter (matches w) (table s))))
    /\ same_store s s'.
Proof.
  intros Hwf Hk Hs Hl. pose proof Hwf as (Hst & Hc & Hkeys & Hn & Hsy).
  set (q := {| q_where := w; q_offset := Some skip; q_limit := Some limit |}).
  set (s1 := set_log (log s ++ [CExec (Select q)]) s).
  set (rows := take (Z.to_nat limit)
                 (drop (Z.to_nat skip) (List.filter (matches w) (table s)))).
  assert (Hwf1 : wf (model self) s1) by done.
  destruct (load_all_spec (model self) rows s1 Hwf1)
    as (s2 & ls & Hls & Hsf & Hss & _ & _).
  { apply Forall_forall. intros r Hr. apply list_elem_of_In in Hr.
    apply In_take, In_drop, filter_In in Hr. tauto. }
  assert (Hex : session_exec (model self) (Select q) s
                = (s2, Ok (Instances ls))).
  { unfold session_exec.
    erewrite bind_ok by reflexivity.
    erewrite bind_ok by (by apply flush_clean).
    erewrite bind_ok by reflexivity.
    erewrite bind_ok by (by apply window_nonneg).
    fold s1 rows. by erewrite bind_ok by exact Hls. }
  exists s2, ls. split; [|split; [done|]].
  - unfold select. simpl.
    erewrite bind_ok by (by apply add_where_known). simpl.
    fold q. erewrite bind_ok by exact Hex.
    by erewrite bind_ok by reflexivity.
  - destruct Hss as (H1 & H2 & H3 & H4 & H5). by repeat split.
Qed.

(** C6. [select] applies the conjunction of the equality predicates of the
    filter, then the offset [skip], then the cap [limit], over the rows in
    the order of the table, and hands back one instance per row of that
    window; it changes nothing in the store. An omitted [skip] is 0, an
    omitted [limit] is 100 and an omitted filter is the empty one. Over three
    matching rows [r1; r2; r3], [skip=1, limit=1] gives exactly the instance
    of [r2]. *)
Theorem select_filters_then_offset_then_limit (self : CRUD) (s : Session)
    (w : list (string * val)) (skip limit : Z) :
  wf (model self) s ->
  known_keys (model self) w ->
  0 <= skip -> 0 <= limit ->
  (exists s' ls,
     select self (Some w) (Some skip) (Some limit) s
     = (s', Ok (match ls with [] => None | _ :: _ => Some ls end))
     /\ stand_for (model self) s' ls
          (take (Z.to_nat limit)
             (drop (Z.to_nat skip) (List.filter (matches w) (table s))))
     /\ same_store s s')
  /\ (forall where_ s0,
        select self where_ None None s0
        = select self where_ (Some 0) (Some 100) s0)
  /\ (forall sk li s0,
        select self None sk li s0 = select self (Some []) sk li s0)
  /\ (forall r1 r2 r3,
        List.filter (matches w) (table s) = [r1; r2; r3] ->
        exists s' l,
          select self (Some w) (Some 1) (Some 1) s = (s', Ok (Some [l]))
          /\ heap s' !! l
             = Some {| attrs := r2; key := Some (row_key (model self) r2) |}).
Proof.
  intros Hwf Hk Hs Hl. split; [by apply select_run|].
  split; [done|]. split; [done|].
  intros r1 r2 r3 Hf.
  destruct (select_run self s w 1 1 Hwf Hk) as (s' & ls & Hsel & Hsf & _);
    [lia | lia |].
  rewrite Hf in Hsf. simpl in Hsf.
  inversion Hsf as [|l r ls' rs' Hl2 Hnil]; subst.
  inversion Hnil; subst. by exists s', l.
Qed.

Lemma select_filters_then_offset_then_limit_witness :
  exists s' l,
    select items (Some [("owner_id"%string, VInt 7)]) (Some 1) (Some 1) session3
    = (s', Ok (Some [l]))
    /\ heap s' !! l
       = Some {| attrs := model_dump Item
                   (item (VInt 2) (VStr "Item title 2") VNone (VInt 7));
                 key := Some (VInt 2) |}.
Proof.
  destruct (select_filters_then_offset_then_limit items session3
              [("owner_id"%string, VInt 7)] 1 1 wf_session3)
    as (_ & _ & _ & H); [| lia | lia |].
  - refine (bool_decide_unpack _ _). vm_compute. exact I.
  - destruct (H (model_dump Item
                   (item (VInt 1) (VStr "Item title 1") (VStr "first") (VInt 7)))
                (model_dump Item
                   (item (VInt 2) (VStr "Item title 2") VNone (VInt 7)))
                (model_dump Item
                   (item (VInt 3) (VStr "Item title 3") VNone (VInt 7))))
      as (s' & l & H1 & H2).
    + vm_compute. reflexivity.
    + exists s', l. split; [exact H1|]. rewrite H2. f_equal.
Defined.

(** C7. When the window of the filter holds no row, [select] returns the
    absent marker [None], and no error; when it holds a row, it returns the
    non-empty sequence of the instances of the window, in order. An empty
    list is never returned. *)
Theorem select_returns_absent_or_nonempty (self : CRUD) (s : Session)
    (w : list (string * val)) (skip limit : Z) :
  wf (model self) s ->
  known_keys (model self) w ->
  0 <= skip -> 0 <= limit ->
  let rows := take (Z.to_nat limit)
                (drop (Z.to_nat skip) (List.filter (matches w) (table s))) in
  (rows = [] ->
     exists s', select self (Some w) (Some skip) (Some limit) s = (s', Ok None)
                /\ same_store s s')
  /\ (rows <> [] ->
        exists s' ls,
          select self (Some w) (Some skip) (Some limit) s = (s', Ok (Some ls))
          /\ ls <> [] /\ stand_for (model self) s' ls rows)
  /\ (forall where_ sk li s0 s' r,
        select self where_ sk li s0 = (s', Ok r) -> r <> Some []).
Proof.
  intros Hwf Hk Hs Hl rows.
  destruct (select_run self s w skip limit Hwf Hk Hs Hl)
    as (s' & ls & Hsel & Hsf & Hss).
  fold rows in Hsf. split; [|split].
  - intros Hr. rewrite Hr in Hsf. inversion Hsf; subst. by exists s'.
  - intros Hr. exists s', ls. destruct ls as [|l ls].
    + inversion Hsf; subst. congruence.
    + by repeat split.
  - intros where_ sk li s0 s2 r H. unfold select in H.
    apply bind_inv_ok in H as (? & ? & _ & H).
    apply bind_inv_ok in H as (? & ? & _ & H).
    apply bind_inv_ok in H as (? & results & _ & H).
    unfold ret in H. injection H as _ <-. by destruct results.
Qed.

Lemma select_returns_absent_or_nonempty_witness :
  exists s',
    select items (Some [("title"%string, VStr "nonexistent")])
      (Some 0) (Some 100) session3
    = (s', Ok None).
Proof.
  destruct (select_returns_absent_or_nonempty items session3
              [("title"%string, VStr "nonexistent")] 0 100 wf_session3)
    as (H & _ & _); [| lia | lia |].
  - refine (bool_decide_unpack _ _). vm_compute. exact I.
  - destruct H as (s' & H & _); [vm_compute; reflexivity|].
    by exists s'.
Defined.

(** ** Expiry, commit and refresh *)

Lemma reload_key m t h p l :
  key <$> (reload m t h p !! l) = key <$> (h !! l).
Proof.
  unfold reload. destruct (find_row m p.1 t) as [r|]; [|done].
  destruct (h !! p.2) as [o|] eqn:Ho; [|done].
  destruct (decide (l = p.2)) as [->|Hne].
  - rewrite list_lookup_insert_eq by (by eapply lookup_lt_Some).
    by rewrite Ho.
  - by rewrite list_lookup_insert_ne.
Qed.

Lemma reload_all_key m t im : forall h l,
  key <$> (foldl (reload m t) h im !! l) = key <$> (h !! l).
Proof.
  induction im as [|p im IH]; intros h l; [done|].
  simpl. by rewrite IH, reload_key.
Qed.

Lemma expire_all_key m s l :
  key <$> (heap (expire_all m s) !! l) = key <$> (heap s !! l).
Proof. unfold expire_all. run. apply reload_all_key. Qed.

Lemma expire_all_deref m s l o :
  heap s !! l = Some o ->
  exists o', heap (expire_all m s) !! l = Some o' /\ key o' = key o.
Proof.
  intros Ho. pose proof (expire_all_key m s l) as H. rewrite Ho in H.
  destruct (heap (expire_all m s) !! l) as [o'|]; [|done].
  exists o'. split; [done|]. simpl in H. congruence.
Qed.

Lemma session_commit_ok m s s' :
  flush_ops m (staged s) (set_log (log s ++ [CCommit]) s) = (s', Ok tt) ->
  session_commit m s = (committed_state m s', Ok tt).
Proof.
  intros H. unfold session_commit, flush. run. by rewrite H.
Qed.

Lemma session_commit_raise m s s' e :
  flush_ops m (staged s) (set_log (log s ++ [CCommit]) s) = (s', Raise e) ->
  session_commit m s = (rollback m s', Raise e).
Proof.
  intros H. unfold session_commit, flush. run. by rewrite H.
Qed.

Lemma session_refresh_ok m s l e k r :
  staged s = [] ->
  heap s !! l = Some e -> key e = Some k ->
  find_row m k (table s) = Some r ->
  session_refresh m (Some l) s
  = (set_heap (<[l := {| attrs := r; key := Some k |}]> (heap s))
       (set_log (log s ++ [CRefresh (Some l)]) s), Ok tt).
Proof.
  intros Hst Ho Hk Hf. unfold session_refresh.
  erewrite bind_ok by reflexivity.
  erewrite bind_ok by (by apply flush_clean).
  run. rewrite Ho. run. rewrite Hk. run. by rewrite Hf.
Qed.

Lemma session_add_ok s l e :
  heap s !! l = Some e ->
  session_add (Some l) s
  = (set_staged (staged s ++ [SAdd l])
       (set_log (log s ++ [CAdd (Some l)]) s), Ok tt).
Proof. intros Ho. unfold session_add. run. by rewrite Ho. Qed.

(** ** [create] *)

Lemma field_insert_eq (r : Row) f v : field (<[f := v]> r) f = v.
Proof. unfold field. by rewrite lookup_insert_eq. Qed.

Lemma field_insert_ne (r : Row) f g v :
  f <> g -> field (<[f := v]> r) g = field r g.
Proof. intros H. unfold field. by rewrite lookup_insert_ne. Qed.

Lemma find_row_app_new m k t row :
  find_row m k t = None -> row_key m row = k ->
  find_row m k (t ++ [row]) = Some row.
Proof.
  intros Hf Hk. unfold find_row in *. induction t as [|r t IH]; simpl in *.
  - by rewrite bool_decide_eq_true_2.
  - destruct (bool_decide (row_key m r = k)); [done|]. by apply IH.
Qed.

Lemma next_key_frame m e s s2 :
  seq s2 = seq s ->
  next_key m e s2
  = (set_seq (seq (next_key m e s).1) s2, (next_key m e s).2).
Proof.
  intros Hs. unfold next_key.
  destruct (getattr e (primary_key m)), (autoincrement m); run;
    destruct s2; simpl in *; by subst.
Qed.

Lemma next_key_nonnull m e s s1 id :
  next_key m e s = (s1, Ok id) -> id <> VNone.
Proof.
  unfold next_key.
  destruct (getattr e (primary_key m)), (autoincrement m); run;
    intros [= <- <-]; done.
Qed.

Lemma next_key_unset m e s s1 id :
  next_key m e s = (s1, Ok id) -> getattr e (primary_key m) = VNone ->
  autoincrement m = true /\ id = VInt (seq s).
Proof.
  unfold next_key. intros H Hn. rewrite Hn in H.
  destruct (autoincrement m); run; [|done]. by injection H as <- <-.
Qed.

(** The state [create] leaves when the INSERT goes through with key [id]. *)
Lemma create_run self s entity e :
  wf (model self) s ->
  heap s !! entity = Some e -> key e = None ->
  match next_key (model self) e s with
  | (s1, Ok id) =>
      let row := <[primary_key (model self) := id]> (model_dump (model self) e) in
      if has_key (model self) id (table s) || negb (constraints (model self) row)
      then exists s', create self entity s = (s', Raise IntegrityError)
      else exists s',
        create self entity s = (s', Ok entity)
        /\ heap s' !! entity = Some {| attrs := row; key := Some id |}
        /\ table s' = table s ++ [row]
        /\ committed s' = table s'
        /\ staged s' = []
        /\ log s' = log s ++ [CAdd (Some entity); CCommit; CRefresh (Some entity)]
  | (s1, Raise err) => exists s', create self entity s = (s', Raise err)
  end.
Proof.
  intros (Hst & Hc & Hk & Hn & Hsy) He Hke.
  set (m := model self).
  set (s1 := set_staged (staged s ++ [SAdd entity])
               (set_log (log s ++ [CAdd (Some entity)]) s)).
  set (s2 := set_log (log s1 ++ [CCommit]) s1).
  assert (Hadd : session_add (Some entity) s = (s1, Ok tt))
    by (by eapply session_add_ok).
  assert (Hfl : flush_ops m (staged s1) s2
                = (insert_row m entity e >> ret tt) s2).
  { subst s1 s2. run. rewrite Hst. simpl. run. rewrite He. run.
    by rewrite Hke. }
  assert (Hnk : next_key m e s2
                = (set_seq (seq (next_key m e s).1) s2, (next_key m e s).2))
    by (by apply next_key_frame).
  unfold create. fold m.
  destruct (next_key m e s) as [sk [id|err]] eqn:Enk; simpl in Hnk.
  - set (row := <[primary_key m := id]> (model_dump m e)).
    destruct (has_key m id (table s) || negb (constraints m row)) eqn:Echk.
    + eexists. erewrite bind_ok by exact Hadd.
      erewrite bind_raise; [reflexivity|].
      apply (session_commit_raise m s1). fold s2. rewrite Hfl.
      erewrite bind_raise; [reflexivity|].
      unfold insert_row. erewrite bind_ok by exact Hnk.
      unfold s2, s1. run. fold row. by rewrite Echk.
    + apply orb_false_elim in Echk as [Hhk Hcs].
      apply has_key_false in Hhk.
      set (s3 := set_identity_map ((id, entity) :: identity_map s2)
                   (set_heap (<[entity :=
                                  {| attrs := <[primary_key m := id]> (attrs e);
                                     key := Some id |}]> (heap s2))
                      (set_table (table s2 ++ [row])
                         (set_seq (seq sk) s2)))).
      assert (Hins : flush_ops m (staged s1) s2 = (s3, Ok tt)).
      { rewrite Hfl. unfold insert_row.
        erewrite bind_ok; [reflexivity|].
        erewrite bind_ok by exact Hnk. unfold s3, s2, s1. run. fold row.
        apply has_key_false in Hhk. by rewrite Hhk, Hcs. }
      apply (session_commit_ok m s1) in Hins.
      assert (He3 : heap s3 !! entity
                    = Some {| attrs := <[primary_key m := id]> (attrs e);
                              key := Some id |}).
      { subst s3. run.
        by rewrite list_lookup_insert_eq by (by eapply lookup_lt_Some). }
      destruct (expire_all_deref m
                  (set_identity_map (imap_prune m (table s3) (identity_map s3))
                     (set_committed (table s3) (set_staged [] s3)))
                  entity _ He3) as (o' & Ho' & Hko').
      fold (committed_state m s3) in Ho'. simpl in Hko'.
      eexists. erewrite bind_ok by exact Hadd.
      erewrite bind_ok by exact Hins.
      erewrite bind_ok.
      2:{ eapply session_refresh_ok; [done | exact Ho' | exact Hko' |].
          apply find_row_app_new; [exact Hhk|]. apply field_insert_eq. }
      split; [reflexivity|]. run.
      split; [by rewrite list_lookup_insert_eq by (by eapply lookup_lt_Some)|].
      unfold committed_state, expire_all, s3, s2, s1. run.
      repeat split. by rewrite <- !app_assoc.
  - eexists. erewrite bind_ok by exact Hadd.
    erewrite bind_raise; [reflexivity|].
    apply (session_commit_raise m s1). fold s2. rewrite Hfl.
    erewrite bind_raise; [reflexivity|].
    unfold insert_row. by erewrite bind_raise by exact Hnk.
Qed.

(** What a flush that went through leaves in the table: no null key. *)
Lemma flush_one_nonnull m op s s' :
  Forall (fun r => row_key m r <> VNone) (table s) ->
  flush_one m op s = (s', Ok tt) ->
  Forall (fun r => row_key m r <> VNone) (table s').
Proof.
  intros Hn. destruct op as [l|l]; unfold flush_one; run.
  - destruct (heap s !! l) as [o|]; [|done]. destruct (key o) as [k|].
    + unfold update_row. run.
      destruct (find_row m k (table s)) as [old|]; [|done].
      destruct (bool_decide (model_dump m o = old)); [by intros [= <-]|].
      destruct (bool_decide (row_key m (model_dump m o) = VNone)) eqn:E;
        [done|]. apply bool_decide_eq_false in E.
      destruct (_ || _); [done|]. run. intros [= <-]. run.
      unfold replace_row. apply Forall_forall. intros r Hr.
      apply list_elem_of_In, in_map_iff in Hr as (r0 & Hr0 & Hin).
      destruct (bool_decide (row_key m r0 = k)); subst; [done|].
      rewrite Forall_forall in Hn. by apply Hn, list_elem_of_In.
    + unfold insert_row. run.
      destruct (next_key m o s) as [sk [id|err]] eqn:Enk; [|done].
      pose proof (next_key_nonnull _ _ _ _ _ Enk) as Hid.
      assert (Htk : table sk = table s).
      { unfold next_key in Enk.
        destruct (getattr o (primary_key m)), (autoincrement m);
          revert Enk; run; by intros [= <- _]. }
      destruct (_ || _); [done|]. run. intros [= <-]. run.
      rewrite Htk. apply Forall_app. split; [done|].
      constructor; [|done]. unfold row_key. by rewrite field_insert_eq.
  - destruct (heap s !! l) as [o|]; [|done]. destruct (key o) as [k|].
    + unfold delete_row. run. intros [= <-]. run.
      unfold remove_row. apply Forall_forall. intros r Hr.
      apply list_elem_of_In, filter_In in Hr as [Hr _].
      rewrite Forall_forall in Hn. by apply Hn, list_elem_of_In.
    + by intros [= <-].
Qed.

Lemma flush_ops_nonnull m ops : forall s s',
  Forall (fun r => row_key m r <> VNone) (table s) ->
  flush_ops m ops s = (s', Ok tt) ->
  Forall (fun r => row_key m r <> VNone) (table s').
Proof.
  induction ops as [|op ops IH]; intros s s' Hn H; simpl in H.
  - by injection H as <-.
  - apply bind_inv_ok in H as (s1 & [] & H1 & H2).
    eapply IH; [|exact H2]. by eapply flush_one_nonnull.
Qed.

Lemma session_commit_inv m s s' :
  session_commit m s = (s', Ok tt) ->
  exists sf,
    flush_ops m (staged s) (set_log (log s ++ [CCommit]) s) = (sf, Ok tt)
    /\ s' = committed_state m sf.
Proof.
  unfold session_commit, flush. run.
  destruct (flush_ops m (staged s) _) as [sf [[]|e]]; [|done].
  intros [= <-]. by exists sf.
Qed.

Lemma session_refresh_inv m s l s' :
  staged s = [] ->
  session_refresh m (Some l) s = (s', Ok tt) ->
  exists e k r,
    heap s !! l = Some e /\ key e = Some k
    /\ find_row m k (table s) = Some r
    /\ s' = set_heap (<[l := {| attrs := r; key := Some k |}]> (heap s))
              (set_log (log s ++ [CRefresh (Some l)]) s).
Proof.
  intros Hst. unfold session_refresh.
  erewrite bind_ok by reflexivity.
  erewrite bind_ok by (by apply flush_clean). run.
  destruct (heap s !! l) as [e|] eqn:He; [|done]. run.
  destruct (key e) as [k|] eqn:Hk; [|done]. run.
  destruct (find_row m k (table s)) as [r|] eqn:Hf; [|done].
  intros [= <-]. exists e, k, r. by repeat split.
Qed.

(** Whatever instance [create] is given, what it returns holds a stored,
    committed row under a key that is not null. *)
Lemma create_inv self s entity s' l :
  wf (model self) s ->
  create self entity s = (s', Ok l) ->
  l = entity
  /\ exists o, heap s' !! l = Some o
               /\ getattr o (primary_key (model self)) <> VNone
               /\ find_row (model self) (getattr o (primary_key (model self)))
                    (table s') = Some (attrs o)
               /\ committed s' = table s'.
Proof.
  intros (Hst & _ & _ & Hn & _) H. set (m := model self) in *.
  unfold create in H. fold m in H.
  apply bind_inv_ok in H as (s1 & [] & Ha & H).
  apply bind_inv_ok in H as (s2 & [] & Hc & H).
  apply bind_inv_ok in H as (s3 & [] & Hr & H).
  injection H as <- <-. split; [done|].
  assert (Hs1 : table s1 = table s /\ log s1 = log s ++ [CAdd (Some entity)]
                /\ staged s1 = staged s ++ [SAdd entity]).
  { revert Ha. unfold session_add. run.
    destruct (heap s !! entity); [|done]. by intros [= <-]. }
  destruct Hs1 as (Ht1 & _ & _).
  apply session_commit_inv in Hc as (sf & Hfl & ->).
  apply flush_ops_nonnull in Hfl; [|by rewrite <- Ht1 in Hn].
  apply session_refresh_inv in Hr as (e & k & r & He & Hk & Hf & ->);
    [|done].
  eexists. run. split.
  { by rewrite list_lookup_insert_eq by (by eapply lookup_lt_Some). }
  unfold getattr. simpl. fold (row_key m r).
  rewrite (find_row_key _ _ _ _ Hf). split; [|by split].
  rewrite <- (find_row_key _ _ _ _ Hf).
  change (table (committed_state m sf)) with (table sf) in Hf.
  rewrite Forall_forall in Hfl. apply Hfl, list_elem_of_In.
  by eapply find_row_In.
Qed.

(** C9. [create(e)] of a new instance stages the INSERT, commits and reloads
    the instance. When the store accepts the row (its key, the one [e]
    carries or the one the store assigns to an unset identity, is not taken,
    and the row constraints hold), [create] returns [e] itself, now
    persistent and holding the stored row, whose identity is not null; the
    row is appended to the table and committed. And whenever [create]
    returns at all, the identity of what it returns is not null. *)
Theorem create_returns_entity_with_identity (self : CRUD) (s : Session)
    (entity : loc) (e : Entity) :
  wf (model self) s ->
  heap s !! entity = Some e ->
  key e = None ->
  (forall s1 id,
     next_key (model self) e s = (s1, Ok id) ->
     let row := <[primary_key (model self) := id]> (model_dump (model self) e) in
     has_key (model self) id (table s) = false ->
     constraints (model self) row = true ->
     exists s',
       create self entity s = (s', Ok entity)
       /\ heap s' !! entity = Some {| attrs := row; key := Some id |}
       /\ field row (primary_key (model self)) = id
       /\ id <> VNone
       /\ (getattr e (primary_key (model self)) = VNone -> id = VInt (seq s))
       /\ table s' = table s ++ [row]
       /\ committed s' = table s'
       /\ log s' = log s ++ [CAdd (Some entity); CCommit; CRefresh (Some entity)])
  /\ (forall x s' l,
        create self x s = (s', Ok l) ->
        l = x
        /\ exists o, heap s' !! l = Some o
                     /\ getattr o (primary_key (model self)) <> VNone
                     /\ find_row (model self)
                          (getattr o (primary_key (model self))) (table s')
                        = Some (attrs o)
                     /\ committed s' = table s').
Proof.
  intros Hwf He Hke.
  pose proof (create_run self s entity e Hwf He Hke) as Hrun.
  split.
  - intros s1 id Hnk row Hhk Hcs. subst row. rewrite Hnk in Hrun.
    cbv zeta in Hrun. rewrite Hhk, Hcs in Hrun. simpl in Hrun.
    destruct Hrun as (s' & H1 & H2 & H3 & H4 & _ & H6).
    exists s'. split; [done|]. split; [done|].
    split; [apply field_insert_eq|].
    split; [by eapply next_key_nonnull|].
    split; [|done].
    intros Hn. by destruct (next_key_unset _ _ _ _ _ Hnk Hn).
  - intros x s' l Hc. by apply (create_inv self s).
Qed.

Lemma create_returns_entity_with_identity_witness :
  exists s',
    create items 0%nat session0 = (s', Ok 0%nat)
    /\ heap s' !! 0%nat
       = Some {| attrs := <["id"%string := VInt 1]>
                   (model_dump Item
                      (item VNone (VStr "Item title 1") (VStr "first") (VInt 7)));
                 key := Some (VInt 1) |}
    /\ VInt 1 <> VNone.
Proof.
  destruct (create_returns_entity_with_identity items session0 0%nat
              (item VNone (VStr "Item title 1") (VStr "first") (VInt 7)) wf_session0)
    as [H _]; [reflexivity | reflexivity |].
  destruct (H (set_seq 2 session0) (VInt 1)) as (s' & H1 & H2 & _ & H4 & _).
  - reflexivity.
  - vm_compute. reflexivity.
  - vm_compute. reflexivity.
  - exists s'. split; [exact H1|]. split; [exact H2|exact H4].
Defined.

(** ** [model_dump] and [sqlmodel_update] *)

Lemma model_dump_lookup m o f :
  model_dump m o !! f
  = if decide (f ∈ fields m) then Some (getattr o f) else None.
Proof.
  unfold model_dump. induction (fields m) as [|g fs IH]; cbn [foldr].
  - rewrite lookup_empty. by rewrite decide_False by apply not_elem_of_nil.
  - destruct (decide (g = f)) as [->|Hne].
    + rewrite lookup_insert_eq. by rewrite decide_True by apply list_elem_of_here.
    + rewrite lookup_insert_ne by done. rewrite IH.
      destruct (decide (f ∈ fs)) as [Hin|Hin].
      * by rewrite decide_True by (by apply list_elem_of_further).
      * rewrite decide_False; [done|].
        intros H. apply elem_of_cons in H as [->|H]; done.
Qed.

Lemma field_model_dump m o f :
  f ∈ fields m -> field (model_dump m o) f = getattr o f.
Proof.
  intros H. unfold field. rewrite model_dump_lookup. by rewrite decide_True.
Qed.

Lemma model_dump_ext m o o' :
  (forall f, f ∈ fields m -> getattr o f = getattr o' f) ->
  model_dump m o = model_dump m o'.
Proof.
  intros H. apply map_eq. intros f. rewrite !model_dump_lookup.
  destruct (decide (f ∈ fields m)); [|done]. by rewrite H.
Qed.

Lemma foldl_insert_lookup (v : string -> val) keys : forall (a : Row) f,
  f ∈ keys -> foldl (fun a f => <[f := v f]> a) a keys !! f = Some (v f).
Proof.
  induction keys as [|g keys IH]; intros a f Hin.
  - by apply not_elem_of_nil in Hin.
  - simpl. destruct (decide (f ∈ keys)) as [Hk|Hk]; [by apply IH|].
    apply elem_of_cons in Hin as [->|Hin]; [|done].
    clear IH. revert a.
    induction keys as [|h keys IH]; intros a; simpl.
    + by rewrite lookup_insert_eq.
    + rewrite not_elem_of_cons in Hk. destruct Hk as [Hne Hk].
      rewrite insert_insert_ne by done. by apply IH.
Qed.

Lemma foldl_delete_lookup keys : forall (d : Row) f,
  foldl (fun d f => base.delete f d) d keys !! f
  = if decide (f ∈ keys) then None else d !! f.
Proof.
  induction keys as [|g keys IH]; intros d f; cbn [foldl].
  - by rewrite decide_False by apply not_elem_of_nil.
  - rewrite IH. destruct (decide (f ∈ keys)) as [Hin|Hin].
    + by rewrite decide_True by (by apply list_elem_of_further).
    + destruct (decide (g = f)) as [->|Hne].
      * rewrite lookup_delete_eq.
        by rewrite decide_True by apply list_elem_of_here.
      * rewrite lookup_delete_ne by done. rewrite decide_False; [done|].
        intros H. apply elem_of_cons in H as [->|H]; done.
Qed.

Lemma model_dump_popped m o :
  foldl (fun d f => base.delete f d) (model_dump m o) (fields m) = ∅.
Proof.
  apply map_eq. intros f. rewrite foldl_delete_lookup, lookup_empty.
  destruct (decide (f ∈ fields m)) as [Hin|Hin]; [done|].
  rewrite model_dump_lookup. by rewrite decide_False.
Qed.

Lemma set_heap_id s l o :
  heap s !! l = Some o -> set_heap (<[l := o]> (heap s)) s = s.
Proof. intros H. rewrite list_insert_id by done. by destruct s. Qed.

(** The first loop of [sqlmodel_update] when the instance is updated from
    itself and [update] holds a value for every key. *)
Lemma update_fields_self (v : string -> val) l keys : forall (d : Row) s o,
  heap s !! l = Some o ->
  NoDup keys ->
  (forall f, f ∈ keys -> d !! f = Some (v f)) ->
  update_fields l l keys d s
  = (set_heap (<[l := {| attrs := foldl (fun a f => <[f := v f]> a) (attrs o) keys;
                         key := key o |}]> (heap s)) s,
     Ok (foldl (fun d f => base.delete f d) d keys)).
Proof.
  induction keys as [|g keys IH]; intros d s o Ho Hnd Hd.
  - simpl. unfold ret. f_equal. symmetry. apply set_heap_id.
    rewrite Ho. by destruct o.
  - apply NoDup_cons in Hnd as [Hg Hnd]. simpl.
    rewrite (Hd g) by apply list_elem_of_here.
    unfold set_attribute. run. rewrite Ho. run.
    erewrite (IH _ _ (setattr o g (v g))).
    + run. by rewrite list_insert_insert_eq.
    + run. by rewrite list_lookup_insert_eq by (by eapply lookup_lt_Some).
    + done.
    + intros f Hf. rewrite lookup_delete_ne by (intros ->; done).
      apply Hd. by apply list_elem_of_further.
Qed.

Lemma sqlmodel_update_self m l e2 s o :
  NoDup (fields m) ->
  heap s !! l = Some o ->
  sqlmodel_update m l l (model_dump m e2) s
  = (set_heap (<[l := {| attrs := foldl (fun a f => <[f := getattr e2 f]> a)
                                    (attrs o) (fields m);
                         key := key o |}]> (heap s)) s, Ok l).
Proof.
  intros Hnd Ho. unfold sqlmodel_update.
  erewrite bind_ok.
  2:{ apply (update_fields_self (getattr e2)); [exact Ho | exact Hnd |].
      intros f Hf. rewrite model_dump_lookup. by rewrite decide_True. }
  rewrite model_dump_popped, map_to_list_empty. reflexivity.
Qed.

(** ** UPDATE of a row *)

Lemma find_replace_row m id id' t r row' :
  find_row m id t = Some r ->
  row_key m row' = id' ->
  id' = id \/ find_row m id' t = None ->
  find_row m id' (replace_row m id row' t) = Some row'.
Proof.
  intros Hf Hk Hor. unfold find_row, replace_row in *.
  induction t as [|r0 t IH]; simpl in *; [done|].
  destruct (decide (row_key m r0 = id)) as [E|E].
  - rewrite (bool_decide_eq_true_2 _ E). simpl.
    by rewrite bool_decide_eq_true_2.
  - rewrite (bool_decide_eq_false_2 _ E) in Hf |- *. simpl.
    destruct (decide (row_key m r0 = id')) as [E'|E'].
    + destruct Hor as [->|Hn]; [done|].
      by rewrite (bool_decide_eq_true_2 _ E') in Hn.
    + rewrite (bool_decide_eq_false_2 _ E'). apply IH; [done|].
      destruct Hor as [->|Hn]; [by left|right].
      by rewrite (bool_decide_eq_false_2 _ E') in Hn.
Qed.

Lemma replace_row_absent m id row' t :
  id ∉ row_key m <$> t -> replace_row m id row' t = t.
Proof.
  unfold replace_row. induction t as [|r0 t IH]; [done|].
  rewrite fmap_cons, not_elem_of_cons. intros [Hne Hin]. simpl.
  rewrite bool_decide_eq_false_2 by done. by rewrite IH.
Qed.

Lemma replace_row_same m id t r :
  NoDup (row_key m <$> t) -> find_row m id t = Some r ->
  replace_row m id r t = t.
Proof.
  induction t as [|r0 t IH]; [done|].
  rewrite fmap_cons, NoDup_cons. intros [Hn Hd] Hf.
  unfold find_row in Hf. simpl in Hf. unfold replace_row. simpl.
  destruct (decide (row_key m r0 = id)) as [E|E].
  - rewrite (bool_decide_eq_true_2 _ E) in Hf |- *. injection Hf as ->.
    f_equal. apply replace_row_absent. by rewrite <- E.
  - rewrite (bool_decide_eq_false_2 _ E) in Hf |- *. f_equal. by apply IH.
Qed.

(** The flush of one staged persistent instance whose row the store takes. *)
Lemma flush_update m s l o id r :
  NoDup (row_key m <$> table s) ->
  heap s !! l = Some o -> key o = Some id ->
  find_row m id (table s) = Some r ->
  row_key m (model_dump m o) <> VNone ->
  row_key m (model_dump m o) = id
    \/ has_key m (row_key m (model_dump m o)) (table s) = false ->
  constraints m (model_dump m o) = true ->
  exists s',
    flush_ops m [SAdd l] s = (s', Ok tt)
    /\ table s' = replace_row m id (model_dump m o) (table s)
    /\ (exists o', heap s' !! l = Some o'
                   /\ key o' = Some (row_key m (model_dump m o)))
    /\ log s' = log s
    /\ staged s' = staged s.
Proof.
  intros Hnd Ho Hk Hf Hnn Hfree Hcs.
  set (row := model_dump m o) in *. set (id' := row_key m row) in *.
  simpl. unfold flush_one. run. rewrite Ho. run. rewrite Hk.
  unfold update_row. run. rewrite Hf. fold row.
  destruct (decide (row = r)) as [->|Hne].
  - rewrite bool_decide_eq_true_2 by done. run.
    exists s. split; [done|].
    split; [by rewrite replace_row_same|].
    split; [|done]. exists o. split; [done|].
    rewrite Hk. f_equal. symmetry. by eapply find_row_key.
  - rewrite bool_decide_eq_false_2 by done. fold id'.
    rewrite (bool_decide_eq_false_2 _ Hnn). simpl.
    assert (Hchk : negb (bool_decide (id' = id)) && has_key m id' (table s)
                   = false).
    { destruct Hfree as [-> | ->].
      - by rewrite bool_decide_eq_true_2.
      - apply andb_false_r. }
    rewrite Hchk, Hcs. simpl. run.
    eexists. split; [reflexivity|]. run.
    split; [done|]. split; [|done]. eexists.
    by rewrite list_lookup_insert_eq by (by eapply lookup_lt_Some).
Qed.

(** ** [update] *)

Lemma getattr_merged m (a : Row) k e2 f :
  f ∈ fields m ->
  getattr {| attrs := foldl (fun a f => <[f := getattr e2 f]> a) a (fields m);
             key := k |} f
  = getattr e2 f.
Proof.
  intros Hf. unfold getattr at 1, field. simpl.
  by rewrite (foldl_insert_lookup (getattr e2)).
Qed.

Lemma update_run self s id entity e2 r :
  wf (model self) s ->
  model_ok (model self) ->
  find_row (model self) id (table s) = Some r ->
  heap s !! entity = Some e2 ->
  let row' := model_dump (model self) e2 in
  let id' := row_key (model self) row' in
  id' <> VNone ->
  id' = id \/ has_key (model self) id' (table s) = false ->
  constraints (model self) row' = true ->
  exists s' l,
    update self id entity s = (s', Ok l)
    /\ heap s' !! l = Some {| attrs := row'; key := Some id' |}
    /\ table s' = replace_row (model self) id row' (table s)
    /\ committed s' = table s'
    /\ staged s' = []
    /\ log s' = log s ++ [CGet id; CAdd (Some l); CCommit; CRefresh (Some l)].
Proof.
  intros Hwf [Hpk Hnd] Hf He row' id' Hnn Hfree Hcs.
  set (m := model self) in *.
  destruct (read_present self s id r Hwf Hf)
    as (s1 & l & Hread & Hl & (Ht1 & Hc1 & _ & Hst1 & Hh1) & Hlog1 & Hwf1).
  fold m in Hwf1. pose proof Hwf1 as (Hst & Hc & Hk & _ & _).
  apply Hh1 in He.
  assert (Hf1 : find_row m id (table s1) = Some r) by (by rewrite Ht1).
  assert (Hfree1 : id' = id \/ find_row m id' (table s1) = None).
  { destruct Hfree as [?|Hfree]; [by left|right].
    apply has_key_false in Hfree. by rewrite Ht1. }
  (* the merge *)
  set (o := {| attrs := foldl (fun a f => <[f := getattr e2 f]> a) r (fields m);
               key := Some id |}).
  set (s2 := set_heap (<[l := o]> (heap s1)) s1).
  assert (Hupd : sqlmodel_update m l l (model_dump m e2) s1 = (s2, Ok l))
    by (by rewrite (sqlmodel_update_self m l e2 s1 _ Hnd Hl)).
  assert (Hl2 : heap s2 !! l = Some o).
  { subst s2. run.
    by rewrite list_lookup_insert_eq by (by eapply lookup_lt_Some). }
  assert (Hdump : model_dump m o = row').
  { apply model_dump_ext. intros f Hin. by apply getattr_merged. }
  (* add, flush *)
  set (s3 := set_staged (staged s2 ++ [SAdd l])
               (set_log (log s2 ++ [CAdd (Some l)]) s2)).
  assert (Hadd : session_add (Some l) s2 = (s3, Ok tt))
    by (by eapply session_add_ok).
  destruct (flush_update m (set_log (log s3 ++ [CCommit]) s3) l o id r)
    as (s4 & Hfl & Ht4 & (o4 & Ho4 & Hk4) & Hlog4 & Hst4).
  { exact Hk. }
  { exact Hl2. }
  { reflexivity. }
  { exact Hf1. }
  { by rewrite Hdump. }
  { rewrite Hdump. fold id'. destruct Hfree1 as [?|Hfree1]; [by left|right].
    by apply has_key_false. }
  { by rewrite Hdump. }
  assert (Hcommit : session_commit m s3 = (committed_state m s4, Ok tt)).
  { apply session_commit_ok. unfold s3 at 1. run.
    unfold s2 at 1. run. by rewrite Hst. }
  (* refresh *)
  rewrite Hdump in Ht4, Hk4. fold id' in Hk4.
  destruct (expire_all_deref m
              (set_identity_map (imap_prune m (table s4) (identity_map s4))
                 (set_committed (table s4) (set_staged [] s4)))
              l o4 Ho4) as (o5 & Ho5 & Hk5).
  fold (committed_state m s4) in Ho5. rewrite Hk4 in Hk5.
  assert (Hrow : find_row m id' (table (committed_state m s4)) = Some row').
  { unfold committed_state, expire_all. run. rewrite Ht4. run.
    by apply (find_replace_row m id id' (table s1) r row'). }
  exists (set_heap (<[l := {| attrs := row'; key := Some id' |}]>
                      (heap (committed_state m s4)))
            (set_log (log (committed_state m s4) ++ [CRefresh (Some l)])
               (committed_state m s4))), l.
  split.
  - unfold update. fold m. erewrite bind_ok by exact Hread. cbn beta iota.
    erewrite bind_ok by (unfold deref; rewrite He; reflexivity).
    fold s2 in Hupd. erewrite bind_ok by exact Hupd.
    erewrite bind_ok by exact Hadd.
    erewrite bind_ok by exact Hcommit.
    erewrite bind_ok; [reflexivity|].
    by eapply session_refresh_ok.
  - run. split.
    { by rewrite list_lookup_insert_eq by (by eapply lookup_lt_Some). }
    unfold committed_state, expire_all. run. rewrite Ht4. run.
    change (table s3) with (table s1). rewrite Ht1. repeat split.
    rewrite Hlog4. change (log (set_log (log s3 ++ [CCommit]) s3))
      with ((log s1 ++ [CAdd (Some l)]) ++ [CCommit]).
    rewrite Hlog1. by rewrite <- !app_assoc.
Qed.



(** C2. The identity is not kept by [update]: the key of [e2] is one of the
    fields copied. With row 1 stored and an [e2] that carries the key 5,
    [update(1, e2)] returns the instance that was loaded for row 1, now with
    identity 5; the table holds a row with key 5 and none with key 1. *)
Lemma update_overwrites_identity :
  (update items (VInt 1) 3%nat session3).2 = Ok 0%nat
  /\ (fun o => getattr o "id")
       <$> heap (update items (VInt 1) 3%nat session3).1 !! 0%nat
     = Some (VInt 5)
  /\ find_row Item (VInt 1) (table (update items (VInt 1) 3%nat session3).1)
     = None
  /\ row_key Item <$> table (update items (VInt 1) 3%nat session3).1
     = [VInt 5; VInt 2; VInt 3].
Proof. vm_compute. repeat split. Qed.

(** ** [delete] *)

Lemma delete_by_filter_run self s w session :
  wf (model self) s ->
  known_keys (model self) w ->
  exists s',
    delete self VNone (Some w) session s = (s', Ok ok_true)
    /\ table s' = List.filter (fun r => negb (matches w r)) (table s)
    /\ committed s' = table s'
    /\ staged s' = []
    /\ log s'
       = log s ++ [CExec (Delete {| q_where := w; q_offset := None;
                                    q_limit := None |}); CCommit].
Proof.
  intros (Hst & _) Hk. set (m := model self).
  set (q := {| q_where := w; q_offset := None; q_limit := None |}).
  set (s1 := set_table (List.filter (fun r => negb (matches w r)) (table s))
               (set_log (log s ++ [CExec (Delete q)]) s)).
  assert (Hex : session_exec m (Delete q) s = (s1, Ok NoRows)).
  { unfold session_exec. erewrite bind_ok by reflexivity.
    erewrite bind_ok by (by apply flush_clean). reflexivity. }
  assert (Hcm : session_commit m s1
                = (committed_state m (set_log (log s1 ++ [CCommit]) s1), Ok tt)).
  { apply session_commit_ok. unfold s1. run. by rewrite Hst. }
  eexists. split.
  - unfold delete. simpl. fold m.
    erewrite bind_ok; [reflexivity|].
    erewrite bind_ok by (by apply add_where_known). simpl. fold q.
    erewrite bind_ok by exact Hex. exact Hcm.
  - unfold committed_state, expire_all, s1. run. repeat split.
    by rewrite <- app_assoc.
Qed.

Lemma delete_by_id_run self s id r where_ session :
  wf (model self) s ->
  id <> VNone ->
  find_row (model self) id (table s) = Some r ->
  exists s',
    delete self id where_ session s = (s', Ok ok_true)
    /\ table s' = remove_row (model self) id (table s)
    /\ committed s' = table s'
    /\ staged s' = [].
Proof.
  intros Hwf Hid Hf. set (m := model self).
  destruct (read_present self s id r Hwf Hf)
    as (s1 & l & Hread & Hl & (Ht1 & _ & _ & _ & _) & _ & Hwf1).
  fold m in Hwf1. destruct Hwf1 as (Hst & _).
  set (s2 := set_staged (staged s1 ++ [SDel l])
               (set_log (log s1 ++ [CDelete (Some l)]) s1)).
  assert (Hdel : session_delete (Some l) s1 = (s2, Ok tt)).
  { unfold session_delete. run. by rewrite Hl. }
  set (s3 := set_log (log s2 ++ [CCommit]) s2).
  set (s4 := set_identity_map (imap_remove id (identity_map s3))
               (set_heap (<[l := {| attrs := r; key := None |}]> (heap s3))
                  (set_table (remove_row m id (table s3)) s3))).
  assert (Hcm : session_commit m s2 = (committed_state m s4, Ok tt)).
  { apply session_commit_ok. unfold s4, s3, s2. run. rewrite Hst.
    cbn [app flush_ops]. unfold flush_one, delete_row. run.
    rewrite Hl. reflexivity. }
  assert (Hbody : (item <~ read self id;
                   session_delete item >> session_commit m) s
                  = (committed_state m s4, Ok tt)).
  { erewrite bind_ok by exact Hread.
    by erewrite bind_ok by exact Hdel. }
  exists (committed_state m s4). split.
  - unfold delete. fold m.
    destruct id; try done; by erewrite bind_ok by exact Hbody.
  - unfold committed_state, expire_all, s4. run.
    change (table s3) with (table s1). by rewrite Ht1.
Qed.

Lemma filter_all_matching (t : list Row) :
  List.filter (fun r => negb (matches [] r)) t = [].
Proof. by induction t. Qed.

(** C5. Without an id, [delete] removes from the table exactly the rows that
    match every entry of the filter and keeps the others in their order (an
    empty or absent filter removes every row), and commits. With the id of a
    stored row it removes that row and commits, whatever the filter says. In
    both modes what is returned is the same acknowledgement [{"ok": True}],
    which carries no count. *)
Theorem delete_by_filter_or_id_acknowledges (self : CRUD) (s : Session)
    (w : list (string * val)) (session : option Session) :
  wf (model self) s ->
  known_keys (model self) w ->
  (exists s',
     delete self VNone (Some w) session s = (s', Ok ok_true)
     /\ table s' = List.filter (fun r => negb (matches w r)) (table s)
     /\ committed s' = table s')
  /\ (exists s',
        delete self VNone None session s = (s', Ok ok_true)
        /\ delete self VNone (Some []) session s = (s', Ok ok_true)
        /\ table s' = [] /\ committed s' = [])
  /\ (forall id r where_,
        id <> VNone ->
        find_row (model self) id (table s) = Some r ->
        exists s',
          delete self id where_ session s = (s', Ok ok_true)
          /\ table s' = remove_row (model self) id (table s)
          /\ committed s' = table s').
Proof.
  intros Hwf Hk. split; [|split].
  - destruct (delete_by_filter_run self s w session Hwf Hk)
      as (s' & H1 & H2 & H3 & _).
    by exists s'.
  - destruct (delete_by_filter_run self s [] session Hwf)
      as (s' & H1 & H2 & H3 & _); [constructor|].
    rewrite filter_all_matching in H2. exists s'.
    split; [exact H1|]. split; [exact H1|]. split; congruence.
  - intros id r where_ Hid Hf.
    destruct (delete_by_id_run self s id r where_ session Hwf Hid Hf)
      as (s' & H1 & H2 & H3 & _).
    by exists s'.
Qed.

Lemma delete_by_filter_or_id_acknowledges_witness :
  (exists s',
     delete items VNone
       (Some [("owner_id"%string, VInt 7); ("title"%string, VStr "Item title 2")])
       None session3 = (s', Ok ok_true)
     /\ row_key Item <$> table s' = [VInt 1; VInt 3])
  /\ (exists s',
        delete items (VInt 2) None None session3 = (s', Ok ok_true)
        /\ row_key Item <$> table s' = [VInt 1; VInt 3]).
Proof.
  destruct (delete_by_filter_or_id_acknowledges items session3
              [("owner_id"%string, VInt 7); ("title"%string, VStr "Item title 2")]
              None wf_session3) as (H1 & _ & H3).
  - refine (bool_decide_unpack _ _). vm_compute. exact I.
  - split.
    + destruct H1 as (s' & Hd & Ht & _). exists s'. split; [exact Hd|].
      rewrite Ht. vm_compute. reflexivity.
    + destruct (H3 (VInt 2)
                  (model_dump Item
                     (item (VInt 2) (VStr "Item title 2") VNone (VInt 7)))
                  None) as (s' & Hd & Ht & _).
      * discriminate.
      * vm_compute. reflexivity.
      * exists s'. split; [exact Hd|]. rewrite Ht. vm_compute. reflexivity.
Defined.

(** * The tests of the repository, on the embedding *)

(** [test_count_objects] *)
Example test_count_objects :
  let s := ((create items 0%nat >> create items 1%nat) session0).1 in
  (count items (Some [("owner_id"%string, VInt 7)]) s).2 = Ok 2
  /\ (count items (Some [("title"%string, VStr "Item title 1")]) s).2 = Ok 1
  /\ (count items (Some [("title"%string, VStr "Nonexistent title")]) s).2
     = Ok 0.
Proof. vm_compute. repeat split. Qed.

(** [test_count_objects_with_none_where] *)
Example test_count_objects_with_none_where :
  log (count items None session0).1 = [CExec (SelectCount empty_query)].
Proof. reflexivity. Qed.

(** [test_create_object] *)
Example test_create_object :
  let r := create items 0%nat session0 in
  r.2 = Ok 0%nat
  /\ (fun o => getattr o "id") <$> heap r.1 !! 0%nat = Some (VInt 1)
  /\ (fun o => getattr o "title") <$> heap r.1 !! 0%nat
     = Some (VStr "Item title 1").
Proof. vm_compute. repeat split. Qed.

(** [test_read_non_existent_object] *)
Example test_read_non_existent_object :
  (read items (VStr "1fc6b356-596b-11ef-8880-e34e273c4c22") session0).2
  = Ok None.
Proof. reflexivity. Qed.

(** [test_update_object]: the caller changes the title of the instance it
    holds and passes that same instance to [update]. *)
Example test_update_object :
  let r := (create items 0%nat >>
            set_attribute 0%nat "title" (VStr "Item title 2") >>
            update items (VInt 1) 0%nat) session0 in
  r.2 = Ok 0%nat
  /\ (fun o => getattr o "id") <$> heap r.1 !! 0%nat = Some (VInt 1)
  /\ (fun o => getattr o "title") <$> heap r.1 !! 0%nat
     = Some (VStr "Item title 2")
  /\ (fun row => field row "title") <$> find_row Item (VInt 1) (table r.1)
     = Some (VStr "Item title 2").
Proof. vm_compute. repeat split. Qed.

(** [test_update_object_with_none_field]: [updated_data] is another
    instance, with an identity of its own. What [update] returns is the
    instance [entity] itself, so the test's [updated_object.id == entity.id]
    compares an instance with itself, and holds although the identity is now
    the one of [updated_data]. *)
Example test_update_object_with_none_field :
  let entity := 0%nat in
  let updated_data := 3%nat in
  let r := (create items entity >> update items (VInt 1) updated_data)
             session0 in
  r.2 = Ok entity
  /\ (fun o => getattr o "title") <$> heap r.1 !! entity
     = Some (VStr "Original title updated")
  /\ (fun o => getattr o "id") <$> heap r.1 !! entity = Some (VInt 5).
Proof. vm_compute. repeat split. Qed.

(** [test_delete_object] *)
Example test_delete_object :
  let r := (create items 0%nat >> delete items (VInt 1) None None) session0 in
  r.2 = Ok ok_true /\ (read items (VInt 1) r.1).2 = Ok None.
Proof. vm_compute. repeat split. Qed.

(** [test_delete_object_with_where_clause] *)
Example test_delete_object_with_where_clause :
  let r := (create items 0%nat >>
            delete items VNone
              (Some [("owner_id"%string, VInt 7);
                     ("title"%string, VStr "Item title 1")]) None) session0 in
  r.2 = Ok ok_true /\ (read items (VInt 1) r.1).2 = Ok None.
Proof. vm_compute. repeat split. Qed.

(** [test_select] *)
Example test_select :
  let s := (create items 0%nat session0).1 in
  (select items (Some [("owner_id"%string, VInt 7)]) None None s).2
  = Ok (Some [0%nat])
  /\ (select items (Some [("title"%string, VStr "Test")]) None None s).2
     = Ok None.
Proof. vm_compute. repeat split. Qed.

(** [test_select_with_limit_and_skip] *)
Example test_select_with_limit_and_skip :
  let r := select items (Some [("owner_id"%string, VInt 7)]) (Some 1) (Some 1)
             session3 in
  r.2 = Ok (Some [1%nat])
  /\ (fun o => getattr o "title") <$> heap r.1 !! 1%nat
     = Some (VStr "Item title 2").
Proof. vm_compute. repeat split. Qed.

(** [test_select_with_none_where] *)
Example test_select_with_none_where :
  log (select items None None None session0).1
  = [CExec (Select (stmt_limit (stmt_offset empty_query 0) 100))].
Proof. reflexivity. Qed.

(** * Well-formedness is an invariant of the repository *)

(** ** Expiry brings the identity map in step with the table *)

Lemma synced_keyed m s : synced m s -> keyed s.
Proof. intros H. eapply Forall_impl; [exact H|]. by intros p [Hk _]. Qed.

Lemma reload_attrs_stable m t im : forall h l k,
  key <$> (h !! l) = Some (Some k) ->
  attrs <$> (h !! l) = find_row m k t ->
  Forall (fun p : val * loc => key <$> (h !! p.2) = Some (Some p.1)) im ->
  attrs <$> (foldl (reload m t) h im !! l) = find_row m k t.
Proof.
  induction im as [|p im IH]; intros h l k Hk Ha Him; [done|].
  apply Forall_cons in Him as [Hp Him]. simpl. apply IH.
  - by rewrite reload_key.
  - unfold reload. destruct (find_row m p.1 t) as [r|] eqn:Hr; [|done].
    destruct (h !! p.2) as [o|] eqn:Ho; [|done].
    destruct (decide (l = p.2)) as [->|Hne].
    + rewrite list_lookup_insert_eq by (by eapply lookup_lt_Some).
      rewrite Ho in Hk. simpl in *.
      assert (p.1 = k) as <- by congruence. by rewrite Hr.
    + by rewrite list_lookup_insert_ne.
  - eapply Forall_impl; [exact Him|]. intros q Hq. by rewrite reload_key.
Qed.

Lemma reload_all_synced m t im : forall h,
  Forall (fun p : val * loc =>
            key <$> (h !! p.2) = Some (Some p.1)
            /\ is_Some (find_row m p.1 t)) im ->
  Forall (fun p : val * loc =>
            key <$> (foldl (reload m t) h im !! p.2) = Some (Some p.1)
            /\ attrs <$> (foldl (reload m t) h im !! p.2) = find_row m p.1 t)
         im.
Proof.
  induction im as [|p im IH]; intros h Him; [constructor|].
  apply Forall_cons in Him as [[Hp [r Hr]] Him]. simpl.
  assert (Him' : Forall (fun q : val * loc =>
                    key <$> (reload m t h p !! q.2) = Some (Some q.1)
                    /\ is_Some (find_row m q.1 t)) im).
  { eapply Forall_impl; [exact Him|]. intros q [Hq ?].
    by rewrite reload_key. }
  constructor; [|by apply IH].
  split; [by rewrite reload_all_key, reload_key|].
  apply reload_attrs_stable.
  - by rewrite reload_key.
  - unfold reload. rewrite Hr.
    destruct (h !! p.2) as [o|] eqn:Ho; [|done].
    by rewrite list_lookup_insert_eq by (by eapply lookup_lt_Some).
  - eapply Forall_impl; [exact Him'|]. by intros q [Hq _].
Qed.

Lemma imap_prune_rows m t im :
  Forall (fun p : val * loc => is_Some (find_row m p.1 t)) (imap_prune m t im).
Proof.
  apply Forall_forall. intros p Hp. unfold imap_prune in Hp.
  apply list_elem_of_In, filter_In in Hp as [_ Hp].
  unfold has_key in Hp. by apply bool_decide_eq_true in Hp.
Qed.

Lemma imap_prune_sub {P : val * loc -> Prop} m t im :
  Forall P im -> Forall P (imap_prune m t im).
Proof.
  rewrite !Forall_forall. intros H p Hp. apply H.
  unfold imap_prune in Hp. apply list_elem_of_In, filter_In in Hp as [Hp _].
  by apply list_elem_of_In.
Qed.

Lemma expire_pruned_synced m s t :
  keyed s -> table s = t ->
  synced m (expire_all m
              (set_identity_map (imap_prune m t (identity_map s)) s)).
Proof.
  intros Hk Ht. unfold synced, expire_all. run. rewrite Ht.
  apply reload_all_synced.
  apply Forall_and. split; [by apply imap_prune_sub | apply imap_prune_rows].
Qed.

Lemma committed_state_wf m s :
  table_ok m (table s) -> keyed s -> wf m (committed_state m s).
Proof.
  intros [Hnd Hnn] Hk. unfold wf.
  split; [done|]. split; [done|]. split; [done|]. split; [done|].
  unfold committed_state.
  apply (expire_pruned_synced m
           (set_committed (table s) (set_staged [] s)) (table s)); done.
Qed.

Lemma rollback_wf m s :
  table_ok m (committed s) -> keyed s -> wf m (rollback m s).
Proof.
  intros [Hnd Hnn] Hk. unfold wf.
  split; [done|]. split; [done|]. split; [done|]. split; [done|].
  unfold rollback.
  apply (expire_pruned_synced m
           (set_staged [] (set_table (committed s) s)) (committed s)); done.
Qed.

(** ** A flush keeps the table and the identity map in order *)

Lemma find_row_None_notin m k t :
  find_row m k t = None <-> k ∉ row_key m <$> t.
Proof.
  rewrite find_row_None. split.
  - intros H Hin. apply list_elem_of_fmap in Hin as (r & -> & Hr).
    apply list_elem_of_In in Hr. by apply (H r Hr).
  - intros H r Hr Hk. apply H. rewrite <- Hk. apply list_elem_of_fmap.
    exists r. split; [done|]. by apply list_elem_of_In.
Qed.

Lemma replace_row_keys m k row t :
  row_key m <$> replace_row m k row t
  = (fun x => if bool_decide (x = k) then row_key m row else x)
      <$> (row_key m <$> t).
Proof.
  unfold replace_row. induction t as [|r t IH]; [done|].
  cbn [List.map]. rewrite !fmap_cons. f_equal; [|exact IH].
  by destruct (bool_decide (row_key m r = k)).
Qed.

Lemma NoDup_rekey (k id' : val) (l : list val) :
  NoDup l -> id' = k \/ id' ∉ l ->
  NoDup ((fun x => if bool_decide (x = k) then id' else x) <$> l).
Proof.
  induction l as [|x l IH]; intros Hnd Hor; [constructor|].
  apply NoDup_cons in Hnd as [Hx Hnd]. rewrite fmap_cons.
  apply NoDup_cons. split.
  - intros Hin. apply list_elem_of_fmap in Hin as (y & Hy & Hyl).
    destruct (decide (x = k)) as [->|Hxk], (decide (y = k)) as [->|Hyk].
    + done.
    + rewrite bool_decide_eq_true_2, bool_decide_eq_false_2 in Hy by done.
      subst y. destruct Hor as [->|Hn]; [done|].
      apply Hn. by apply list_elem_of_further.
    + rewrite bool_decide_eq_false_2, bool_decide_eq_true_2 in Hy by done.
      subst x. destruct Hor as [->|Hn]; [done|].
      apply Hn. apply list_elem_of_here.
    + rewrite !bool_decide_eq_false_2 in Hy by done. by subst y.
  - apply IH; [done|]. destruct Hor as [?|Hn]; [by left|right].
    intros H. apply Hn. by apply list_elem_of_further.
Qed.

Lemma keyed_other_loc s l o (q : val * loc) :
  keyed s -> heap s !! l = Some o -> key o <> Some q.1 ->
  q ∈ identity_map s -> q.2 <> l.
Proof.
  intros Hk Ho Hne Hq E. unfold keyed in Hk.
  rewrite Forall_forall in Hk. apply Hk in Hq. rewrite E, Ho in Hq.
  simpl in Hq. congruence.
Qed.

Lemma imap_remove_elem k im q :
  q ∈ imap_remove k im -> q ∈ im /\ q.1 <> k.
Proof.
  unfold imap_remove. intros H. apply list_elem_of_In, filter_In in H as [H1 H2].
  split; [by apply list_elem_of_In|].
  apply negb_true_iff, bool_decide_eq_false in H2. done.
Qed.

(** The instance at [l] takes a new key; the entries of other instances
    stay as they are. *)
Lemma keyed_rekey s l o o' (im : list (val * loc)) :
  keyed s -> heap s !! l = Some o ->
  Forall (fun q : val * loc =>
            q ∈ identity_map s /\ key o <> Some q.1
            \/ q.2 = l /\ key o' = Some q.1) im ->
  keyed (set_identity_map im (set_heap (<[l := o']> (heap s)) s)).
Proof.
  intros Hk Ho Him. unfold keyed. run.
  eapply Forall_impl; [exact Him|]. intros q [[Hq Hne]|[-> Hq]].
  - rewrite list_lookup_insert_ne.
    + unfold keyed in Hk. rewrite Forall_forall in Hk. by apply Hk.
    + intros E. by eapply (keyed_other_loc s l o q).
  - rewrite list_lookup_insert_eq by (by eapply lookup_lt_Some).
    simpl. by rewrite Hq.
Qed.

Lemma keyed_ext s s' :
  heap s' = heap s -> identity_map s' = identity_map s -> keyed s -> keyed s'.
Proof. unfold keyed. by intros -> ->. Qed.

Lemma update_row_inv m l o k s s' res :
  keyed s -> heap s !! l = Some o -> key o = Some k ->
  update_row m l o k s = (s', res) ->
  keyed s' /\ committed s' = committed s
  /\ (res = Ok tt -> table_ok m (table s) -> table_ok m (table s')).
Proof.
  intros Hk Ho Hko. unfold update_row. run.
  destruct (find_row m k (table s)) as [old|] eqn:Hf;
    [|by intros [= <- <-]].
  destruct (bool_decide (model_dump m o = old)); [by intros [= <- <-]|].
  set (row := model_dump m o). set (id' := row_key m row).
  destruct (bool_decide (id' = VNone)) eqn:Hnn; [by intros [= <- <-]|].
  apply bool_decide_eq_false in Hnn.
  destruct (negb (bool_decide (id' = k)) && has_key m id' (table s)) eqn:Hfree;
    [by intros [= <- <-]|].
  destruct (negb (constraints m row)); [by intros [= <- <-]|].
  simpl. run. intros [= <- <-]. split; [|split; [done|]].
  - eapply keyed_ext; [| |eapply (keyed_rekey s l o)]; [done|done|done|done|].
    constructor; [right; by split|].
    apply Forall_forall. intros q Hq. apply imap_remove_elem in Hq as [Hq Hne].
    left. split; [done|]. rewrite Hko. congruence.
  - intros _ [Hnd Hn]. run. split.
    + rewrite replace_row_keys. apply NoDup_rekey; [done|]. fold id'.
      apply andb_false_iff in Hfree as [Hfree|Hfree].
      * left. apply negb_false_iff in Hfree. by apply bool_decide_eq_true in Hfree.
      * right. by apply find_row_None_notin, has_key_false.
    + unfold replace_row. apply Forall_forall. intros r Hr.
      apply list_elem_of_In, in_map_iff in Hr as (r0 & Hr0 & Hin).
      destruct (bool_decide (row_key m r0 = k)); subst; [done|].
      rewrite Forall_forall in Hn. by apply Hn, list_elem_of_In.
Qed.

Lemma next_key_inv m o s s' res :
  next_key m o s = (s', res) ->
  heap s' = heap s /\ identity_map s' = identity_map s
  /\ table s' = table s /\ committed s' = committed s.
Proof.
  unfold next_key.
  destruct (getattr o (primary_key m)), (autoincrement m); run;
    by intros [= <- <-].
Qed.

Lemma insert_row_inv m l o s s' res :
  keyed s -> heap s !! l = Some o -> key o = None ->
  insert_row m l o s = (s', res) ->
  keyed s' /\ committed s' = committed s
  /\ (res = Ok tt -> table_ok m (table s) -> table_ok m (table s')).
Proof.
  intros Hk Ho Hko. unfold insert_row. unfold bind at 1.
  destruct (next_key m o s) as [sk [id|err]] eqn:Enk.
  2:{ intros [= <- <-]. apply next_key_inv in Enk as (Hh & Hi & _ & Hc).
      split; [by eapply keyed_ext|]. by split. }
  pose proof (next_key_nonnull _ _ _ _ _ Enk) as Hid.
  apply next_key_inv in Enk as (Hh & Hi & Ht & Hc).
  assert (Hksk : keyed sk) by (by eapply keyed_ext).
  run. destruct (has_key m id (table sk)) eqn:Hhk;
    [by intros [= <- <-]|].
  destruct (negb (constraints m _)); [by intros [= <- <-]|].
  simpl. run. intros [= <- <-]. split; [|split; [done|]].
  - eapply keyed_ext;
      [| |eapply (keyed_rekey sk l o
                    {| attrs := <[primary_key m := id]> (attrs o);
                       key := Some id |}
                    ((id, l) :: identity_map sk))];
      [done | done | done | by rewrite Hh |].
    constructor; [right; by split|].
    apply Forall_forall. intros q Hq. left. split; [done|]. by rewrite Hko.
  - intros _ [Hnd Hn]. run. rewrite Ht. split.
    + rewrite fmap_app. apply NoDup_app. split; [done|].
      split; [|apply NoDup_singleton]. intros x Hx Hin.
      apply list_elem_of_singleton in Hin. subst x.
      unfold row_key at 1 in Hx. rewrite field_insert_eq in Hx.
      apply has_key_false, find_row_None_notin in Hhk. rewrite Ht in Hhk.
      done.
    + apply Forall_app. split; [done|]. constructor; [|done].
      unfold row_key. by rewrite field_insert_eq.
Qed.

Lemma NoDup_keys_filter m (P : Row -> bool) t :
  NoDup (row_key m <$> t) -> NoDup (row_key m <$> List.filter P t).
Proof.
  induction t as [|r t IH]; [done|].
  rewrite fmap_cons, NoDup_cons. intros [Hr Hnd]. simpl.
  destruct (P r); [|by apply IH].
  rewrite fmap_cons. apply NoDup_cons. split; [|by apply IH].
  intros Hin. apply Hr. apply list_elem_of_fmap in Hin as (r' & -> & Hr').
  apply list_elem_of_fmap. exists r'. split; [done|].
  apply list_elem_of_In, filter_In in Hr' as [Hr' _]. by apply list_elem_of_In.
Qed.

Lemma table_ok_filter m (P : Row -> bool) t :
  table_ok m t -> table_ok m (List.filter P t).
Proof.
  intros [Hnd Hn]. split; [by apply NoDup_keys_filter|].
  apply Forall_forall. intros r Hr.
  apply list_elem_of_In, filter_In in Hr as [Hr _].
  rewrite Forall_forall in Hn. by apply Hn, list_elem_of_In.
Qed.

Lemma delete_row_inv m l o k s s' res :
  keyed s -> heap s !! l = Some o -> key o = Some k ->
  delete_row m l o k s = (s', res) ->
  keyed s' /\ committed s' = committed s
  /\ (res = Ok tt -> table_ok m (table s) -> table_ok m (table s')).
Proof.
  intros Hk Ho Hko. unfold delete_row. run. intros [= <- <-].
  split; [|split; [done|]].
  - eapply keyed_ext; [| |eapply (keyed_rekey s l o)]; [done|done|done|done|].
    apply Forall_forall. intros q Hq. apply imap_remove_elem in Hq as [Hq Hne].
    left. split; [done|]. rewrite Hko. congruence.
  - intros _ Hok. run. by apply table_ok_filter.
Qed.

Lemma flush_one_inv m op s s' res :
  keyed s ->
  flush_one m op s = (s', res) ->
  keyed s' /\ committed s' = committed s
  /\ (res = Ok tt -> table_ok m (table s) -> table_ok m (table s')).
Proof.
  intros Hk. destruct op as [l|l]; unfold flush_one; unfold bind, deref;
    destruct (heap s !! l) as [o|] eqn:Ho; try (by intros [= <- <-]);
    destruct (key o) as [k|] eqn:Hko.
  - by apply update_row_inv.
  - by apply insert_row_inv.
  - by apply delete_row_inv.
  - by intros [= <- <-].
Qed.

Lemma flush_ops_inv m ops : forall s s' res,
  keyed s ->
  flush_ops m ops s = (s', res) ->
  keyed s' /\ committed s' = committed s
  /\ (res = Ok tt -> table_ok m (table s) -> table_ok m (table s')).
Proof.
  induction ops as [|op ops IH]; intros s s' res Hk; simpl.
  - by intros [= <- <-].
  - unfold bind. destruct (flush_one m op s) as [s1 [[]|e]] eqn:E.
    + destruct (flush_one_inv _ _ _ _ _ Hk E) as (Hk1 & Hc1 & Ht1).
      intros H. destruct (IH _ _ _ Hk1 H) as (Hk2 & Hc2 & Ht2).
      split; [done|]. split; [congruence|]. intros Hr Hok. auto.
    + intros [= <- <-].
      destruct (flush_one_inv _ _ _ _ _ Hk E) as (Hk1 & Hc1 & _).
      by repeat split.
Qed.

(** Whatever a commit does, it leaves a well-formed session. *)
Lemma session_commit_wf m s :
  table_ok m (table s) -> table_ok m (committed s) -> keyed s ->
  wf m (session_commit m s).1.
Proof.
  intros Ht Hc Hk. unfold session_commit, flush. run.
  destruct (flush_ops m (staged s) _) as [sf [[]|e]] eqn:E;
    apply flush_ops_inv in E as (Hkf & Hcf & Htf); try done; simpl.
  - apply committed_state_wf; [by apply Htf | done].
  - apply rollback_wf; [by rewrite Hcf | done].
Qed.

(** ** Every operation leaves a well-formed session *)

(** As [run], but the binds stay folded. *)
Ltac prims :=
  cbv beta delta [ret raise get_session modify emit alloc store];
  cbn beta iota delta
    [fst snd heap table committed seq identity_map staged log
     set_heap set_table set_committed set_seq set_identity_map set_staged
     set_log].

Lemma wf_set_log m s lg : wf m s -> wf m (set_log lg s).
Proof. done. Qed.

Lemma bind_fst {A B} (c : M A) (k : A -> M B) s :
  (bind c k s).1
  = match c s with
    | (s', Ok a) => (k a s').1
    | (s', Raise _) => s'
    end.
Proof. unfold bind. by destruct (c s) as [s' [a|e]]. Qed.

Lemma keyed_same_key s l o o' :
  keyed s -> heap s !! l = Some o -> key o' = key o ->
  keyed (set_heap (<[l := o']> (heap s)) s).
Proof.
  intros Hk Ho Hko. unfold keyed in *. run.
  eapply Forall_impl; [exact Hk|]. intros q Hq.
  destruct (decide (q.2 = l)) as [E|E].
  - destruct q as [k1 l1]. simpl in *. subst l1. rewrite Ho in Hq.
    rewrite list_lookup_insert_eq by (by eapply lookup_lt_Some).
    simpl in *. congruence.
  - by rewrite list_lookup_insert_ne.
Qed.

Lemma refreshed_wf m s l e k r lg :
  wf m s -> heap s !! l = Some e -> key e = Some k ->
  find_row m k (table s) = Some r ->
  wf m (set_heap (<[l := {| attrs := r; key := Some k |}]> (heap s))
          (set_log lg s)).
Proof.
  intros (Hst & Hc & Hnd & Hn & Hsy) He Hk Hf.
  split; [done|]. split; [done|]. split; [done|]. split; [done|].
  unfold synced in *. run. eapply Forall_impl; [exact Hsy|].
  intros q [Hq1 Hq2]. destruct (decide (q.2 = l)) as [E|E].
  - destruct q as [k1 l1]. simpl in *. subst l1. rewrite He in Hq1, Hq2.
    rewrite list_lookup_insert_eq by (by eapply lookup_lt_Some).
    simpl in *. assert (k1 = k) as -> by congruence. by rewrite Hf.
  - by rewrite list_lookup_insert_ne.
Qed.

Lemma session_refresh_wf m s o :
  wf m s -> wf m (session_refresh m o s).1.
Proof.
  intros Hwf. pose proof Hwf as (Hst & _).
  unfold session_refresh. rewrite bind_fst. prims.
  destruct o as [l|]; [|done].
  rewrite bind_fst, flush_clean by done.
  rewrite bind_fst. unfold deref. prims.
  destruct (heap s !! l) as [e|] eqn:He; prims; [|done].
  destruct (key e) as [k|] eqn:Hk; prims; [|done].
  rewrite bind_fst. prims.
  destruct (find_row m k (table s)) as [r|] eqn:Hf; prims; [|done].
  by eapply refreshed_wf.
Qed.

Lemma wf_table_ok m s : wf m s -> table_ok m (table s).
Proof. by intros (_ & _ & Hnd & Hn & _). Qed.

Lemma create_wf self s entity :
  wf (model self) s -> wf (model self) (create self entity s).1.
Proof.
  intros Hwf. pose proof Hwf as (Hst & Hc & _ & _ & Hsy).
  unfold create. rewrite bind_fst.
  destruct (heap s !! entity) as [e|] eqn:He.
  2:{ unfold session_add. run. by rewrite He. }
  rewrite (session_add_ok s entity e He).
  set (s1 := set_staged _ _).
  assert (Hwf2 : wf (model self) (session_commit (model self) s1).1).
  { apply session_commit_wf.
    - by apply (wf_table_ok _ s).
    - change (committed s1) with (committed s). rewrite Hc.
      by apply wf_table_ok.
    - by apply synced_keyed in Hsy. }
  rewrite bind_fst.
  destruct (session_commit (model self) s1) as [s2 [[]|err]]; [|done].
  rewrite bind_fst. simpl in Hwf2.
  pose proof (session_refresh_wf _ _ (Some entity) Hwf2) as Hwf3.
  by destruct (session_refresh (model self) (Some entity) s2) as [s3 [[]|err]].
Qed.


Lemma update_wf self s id entity :
  wf (model self) s -> model_ok (model self) ->
  wf (model self) (update self id entity s).1.
Proof.
  intros Hwf [_ Hnd]. set (m := model self).
  destruct (find_row m id (table s)) as [r|] eqn:Hf.
  2:{ unfold update. by erewrite bind_ok by (by apply read_absent). }
  destruct (read_present self s id r Hwf Hf)
    as (s1 & l & Hread & Hl & _ & _ & Hwf1).
  fold m in Hwf1. pose proof Hwf1 as (Hst & Hc & _ & _ & Hsy).
  unfold update. rewrite bind_fst, Hread. cbn beta iota.
  rewrite bind_fst. unfold deref at 1.
  destruct (heap s1 !! entity) as [e|]; [|done].
  rewrite bind_fst. fold m.
  rewrite (sqlmodel_update_self m l e s1 _ Hnd Hl).
  set (o := {| attrs := _; key := _ |}).
  set (s2 := set_heap (<[l := o]> (heap s1)) s1).
  assert (Hl2 : heap s2 !! l = Some o).
  { unfold s2. run.
    by rewrite list_lookup_insert_eq by (by eapply lookup_lt_Some). }
  rewrite bind_fst, (session_add_ok s2 l o Hl2).
  set (s3 := set_staged _ _).
  assert (Hwf4 : wf m (session_commit m s3).1).
  { apply session_commit_wf.
    - by apply (wf_table_ok m s1).
    - change (committed s3) with (committed s1). rewrite Hc.
      by apply (wf_table_ok m s1).
    - eapply keyed_ext; [| |eapply (keyed_same_key s1 l _ o)];
        [done | done | by eapply synced_keyed | exact Hl | done]. }
  rewrite bind_fst.
  destruct (session_commit m s3) as [s4 [[]|err]]; [|done].
  rewrite bind_fst. simpl in Hwf4.
  pose proof (session_refresh_wf _ _ (Some l) Hwf4) as Hwf5.
  by destruct (session_refresh m (Some l) s4) as [s5 [[]|err]].
Qed.

Lemma add_where_state m w q s : (add_where m w q s).1 = s.
Proof.
  destruct (decide (known_keys m w)) as [H|H].
  - by rewrite add_where_known.
  - by rewrite add_where_unknown.
Qed.

Lemma window_cases q rows s :
  (exists e, window q rows s = (s, Raise e))
  \/ (exists rows', window q rows s = (s, Ok rows')
                    /\ forall r, In r rows' -> In r rows).
Proof.
  unfold window, offset_rows, limit_rows.
  destruct (q_offset q) as [n|], (q_limit q) as [k|]; run;
    repeat match goal with
      | |- context [bool_decide ?P] => destruct (bool_decide P)
      end;
    run; eauto; right; eexists; (split; [reflexivity|]); intros r Hr;
    eauto using In_take, In_drop.
Qed.

Lemma session_exec_wf m st s :
  wf m s ->
  match st with Delete _ => True | _ => wf m (session_exec m st s).1 end.
Proof.
  intros Hwf. pose proof Hwf as (Hst & _).
  destruct st as [q|q|q]; [| |done]; unfold session_exec;
    rewrite bind_fst; prims; rewrite bind_fst, flush_clean by done;
    rewrite bind_fst; prims; [done|].
  rewrite bind_fst.
  destruct (window_cases q (List.filter (matches (q_where q)) (table s))
              (set_log (log s ++ [CExec (Select q)]) s))
    as [[e ->]|(rows & -> & Hsub)]; [done|].
  rewrite bind_fst.
  destruct (load_all_spec m rows (set_log (log s ++ [CExec (Select q)]) s))
    as (s' & ls & -> & _ & _ & _ & Hwf'); [done| |done].
  apply Forall_forall. intros r Hr. apply list_elem_of_In, Hsub, filter_In in Hr.
  tauto.
Qed.


Lemma select_wf self s w skip limit :
  wf (model self) s -> wf (model self) (select self w skip limit s).1.
Proof.
  intros Hwf. unfold select. rewrite bind_fst.
  pose proof (add_where_state (model self) (default [] w) empty_query s) as Hs.
  destruct (add_where _ _ _ s) as [s1 [q|e]]; simpl in Hs; subst s1; [|done].
  rewrite bind_fst.
  pose proof (session_exec_wf (model self) (Select (stmt_limit (stmt_offset q
                (default 0 skip)) (default 100 limit))) s Hwf) as H.
  destruct (session_exec _ _ s) as [s1 [r|e]]; [|done].
  simpl in H. rewrite bind_fst. by destruct r.
Qed.

Lemma delete_wf self s id w session :
  wf (model self) s -> wf (model self) (delete self id w session s).1.
Proof.
  intros Hwf. pose proof Hwf as (Hst & Hc & _ & _ & Hsy).
  set (m := model self).
  assert (Hid : wf m ((item <~ read self id;
                       session_delete item >> session_commit m) s).1).
  { rewrite bind_fst.
    destruct (find_row m id (table s)) as [r|] eqn:Hf.
    - destruct (read_present self s id r Hwf Hf)
        as (s1 & l & -> & Hl & _ & _ & Hwf1).
      fold m in Hwf1. pose proof Hwf1 as (_ & Hc1 & _ & _ & Hsy1).
      rewrite bind_fst. unfold session_delete. run. rewrite Hl. run.
      apply session_commit_wf.
      + by apply (wf_table_ok m s1).
      + run. rewrite Hc1. by apply (wf_table_ok m s1).
      + by apply synced_keyed in Hsy1.
    - rewrite read_absent by done. rewrite bind_fst.
      unfold session_delete. by run. }
  assert (Hw : wf m ((query <~ add_where m (default [] w) empty_query;
                      session_exec m (Delete query) >> session_commit m) s).1).
  { rewrite bind_fst.
    pose proof (add_where_state m (default [] w) empty_query s) as Hs.
    destruct (add_where _ _ _ s) as [s1 [q|e]]; simpl in Hs; subst s1; [|done].
    rewrite bind_fst. unfold session_exec.
    erewrite bind_ok by reflexivity.
    erewrite bind_ok by (by apply flush_clean). run.
    apply session_commit_wf.
    - run. by apply table_ok_filter, wf_table_ok.
    - run. rewrite Hc. by apply wf_table_ok.
    - by apply synced_keyed in Hsy. }
  unfold delete. fold m. rewrite bind_fst.
  destruct id;
    match goal with
    | |- context [match ?c s with _ => _ end] =>
        destruct (c s) as [s1 [[]|e]]; done
    end.
Qed.


(** A session that holds no row and no instance is well formed. *)
Lemma wf_empty m h n lg :
  wf m {| heap := h; table := []; committed := []; seq := n;
          identity_map := []; staged := []; log := lg |}.
Proof.
  repeat split; simpl; try constructor.
Qed.

(** * Further properties of the repository *)

(** ** [count] and filters *)

Lemma filter_matches_nil (t : list Row) : List.filter (matches []) t = t.
Proof. induction t as [|r t IH]; [done|]. simpl. by rewrite IH. Qed.

Lemma count_run self s w :
  staged s = [] ->
  known_keys (model self) w ->
  count self (Some w) s
  = (set_log (log s ++ [CExec (SelectCount
                 {| q_where := w; q_offset := None; q_limit := None |})]) s,
     Ok (Z.of_nat (length (List.filter (matches w) (table s))))).
Proof.
  intros Hst Hk.
  set (q := {| q_where := w; q_offset := None; q_limit := None |}).
  assert (Hex : session_exec (model self) (SelectCount q) s
            = (set_log (log s ++ [CExec (SelectCount q)]) s,
               Ok (Scalars [Z.of_nat (length (List.filter (matches w)
                                                (table s)))]))).
  { unfold session_exec. erewrite bind_ok by reflexivity.
    erewrite bind_ok by (by apply flush_clean). reflexivity. }
  unfold count. simpl.
  erewrite bind_ok by (by apply add_where_known). simpl. fold q.
  by erewrite bind_ok by exact Hex.
Qed.

(** X1. [count] returns the number of rows that match every entry of the
    filter; the absent filter and the empty one both count every row. One
    statement is executed and nothing in the session changes but the call
    log. *)
Theorem count_is_number_of_matching_rows (self : CRUD) (s : Session)
    (w : list (string * val)) :
  wf (model self) s ->
  known_keys (model self) w ->
  count self (Some w) s
  = (set_log (log s ++ [CExec (SelectCount
                 {| q_where := w; q_offset := None; q_limit := None |})]) s,
     Ok (Z.of_nat (length (List.filter (matches w) (table s)))))
  /\ count self None s = count self (Some []) s
  /\ (count self None s).2 = Ok (Z.of_nat (length (table s))).
Proof.
  intros (Hst & _) Hk.
  split; [by apply count_run|]. split; [done|].
  change (count self None s) with (count self (Some []) s).
  rewrite count_run by (done || constructor). simpl.
  by rewrite filter_matches_nil.
Qed.

Lemma count_is_number_of_matching_rows_witness :
  (count items (Some [("owner_id"%string, VInt 7);
                      ("title"%string, VStr "Item title 2")]) session3).2
  = Ok 1
  /\ (count items None session3).2 = Ok 3.
Proof.
  destruct (count_is_number_of_matching_rows items session3
              [("owner_id"%string, VInt 7);
               ("title"%string, VStr "Item title 2")] wf_session3)
    as (H1 & _ & H3).
  - refine (bool_decide_unpack _ _). vm_compute. exact I.
  - split; [by rewrite H1|exact H3].
Defined.



(** ** What is read back after a delete *)

Lemma find_row_removed m k t : find_row m k (remove_row m k t) = None.
Proof.
  apply find_row_None. intros r Hr. unfold remove_row in Hr.
  apply filter_In in Hr as [_ Hr].
  by apply negb_true_iff, bool_decide_eq_false in Hr.
Qed.

(** X3. After [delete(id)] of a stored row, [read(id)] returns the absent
    result. *)
Theorem delete_then_read_is_absent (self : CRUD) (s : Session) (id : val)
    (r : Row) (where_ : option (list (string * val)))
    (session : option Session) :
  wf (model self) s ->
  id <> VNone ->
  find_row (model self) id (table s) = Some r ->
  exists s1,
    delete self id where_ session s = (s1, Ok ok_true)
    /\ read self id s1 = (set_log (log s1 ++ [CGet id]) s1, Ok None).
Proof.
  intros Hwf Hid Hf.
  destruct (delete_by_id_run self s id r where_ session Hwf Hid Hf)
    as (s1 & Hd & Ht & _).
  exists s1. split; [done|].
  pose proof (delete_wf self s id where_ session Hwf) as Hwf1.
  rewrite Hd in Hwf1. apply read_absent; [done|].
  rewrite Ht. apply find_row_removed.
Qed.

Lemma delete_then_read_is_absent_witness :
  exists s1,
    delete items (VInt 2) None None session3 = (s1, Ok ok_true)
    /\ (read items (VInt 2) s1).2 = Ok None.
Proof.
  destruct (delete_then_read_is_absent items session3 (VInt 2)
              (model_dump Item
                 (item (VInt 2) (VStr "Item title 2") VNone (VInt 7)))
              None None wf_session3) as (s1 & H1 & H2).
  - discriminate.
  - vm_compute. reflexivity.
  - exists s1. split; [exact H1|]. by rewrite H2.
Defined.

Lemma filter_none_left (P : Row -> bool) (t : list Row) :
  List.filter P (List.filter (fun r => negb (P r)) t) = [].
Proof.
  induction t as [|r t IH]; [done|]. simpl.
  destruct (P r) eqn:E; simpl; [done|]. by rewrite E.
Qed.

(** X4. After the bulk [delete] with a filter, no row matches the filter any
    more: [count] with the same filter is 0 and [select] with it returns the
    absent marker, whatever the window. *)
Theorem delete_by_filter_leaves_no_match (self : CRUD) (s : Session)
    (w : list (string * val)) (session : option Session) :
  wf (model self) s ->
  known_keys (model self) w ->
  exists s1,
    delete self VNone (Some w) session s = (s1, Ok ok_true)
    /\ (count self (Some w) s1).2 = Ok 0
    /\ (forall skip limit, 0 <= skip -> 0 <= limit ->
          (select self (Some w) (Some skip) (Some limit) s1).2 = Ok None).
Proof.
  intros Hwf Hk.
  destruct (delete_by_filter_run self s w session Hwf Hk)
    as (s1 & Hd & Ht & _).
  pose proof (delete_wf self s VNone (Some w) session Hwf) as Hwf1.
  rewrite Hd in Hwf1. simpl in Hwf1.
  assert (Hnone : List.filter (matches w) (table s1) = []).
  { rewrite Ht. apply filter_none_left. }
  exists s1. split; [done|]. split.
  - pose proof Hwf1 as (Hst & _).
    rewrite count_run by done. simpl. by rewrite Hnone.
  - intros skip limit Hs Hl.
    destruct (select_run self s1 w skip limit Hwf1 Hk Hs Hl)
      as (s2 & ls & Hsel & Hsf & _).
    rewrite Hnone, drop_nil, take_nil in Hsf. inversion Hsf; subst.
    by rewrite Hsel.
Qed.

Lemma delete_by_filter_leaves_no_match_witness :
  exists s1,
    delete items VNone (Some [("owner_id"%string, VInt 7)]) None session3
    = (s1, Ok ok_true)
    /\ (count items (Some [("owner_id"%string, VInt 7)]) s1).2 = Ok 0
    /\ (select items (Some [("owner_id"%string, VInt 7)]) (Some 0) (Some 100)
          s1).2 = Ok None.
Proof.
  destruct (delete_by_filter_leaves_no_match items session3
              [("owner_id"%string, VInt 7)] None wf_session3)
    as (s1 & H1 & H2 & H3).
  - refine (bool_decide_unpack _ _). vm_compute. exact I.
  - exists s1. split; [exact H1|]. split; [exact H2|]. apply H3; lia.
Defined.

(** ** The window of [select] *)

(** X5. [select] never hands back more instances than [limit] (100 when it
    is omitted), and hands back the absent marker when [skip] reaches the
    number of matching rows. *)
Theorem select_is_bounded_by_limit (self : CRUD) (s : Session)
    (w : list (string * val)) (skip limit : Z) :
  wf (model self) s ->
  known_keys (model self) w ->
  0 <= skip -> 0 <= limit ->
  (forall s' ls,
     select self (Some w) (Some skip) (Some limit) s = (s', Ok (Some ls)) ->
     Z.of_nat (length ls) <= limit)
  /\ (forall s' ls,
        select self (Some w) None None s = (s', Ok (Some ls)) ->
        Z.of_nat (length ls) <= 100)
  /\ (Z.of_nat (length (List.filter (matches w) (table s))) <= skip ->
      (select self (Some w) (Some skip) (Some limit) s).2 = Ok None).
Proof.
  intros Hwf Hk Hs Hl.
  assert (Hb : forall sk li s' ls, 0 <= sk -> 0 <= li ->
            select self (Some w) (Some sk) (Some li) s = (s', Ok (Some ls)) ->
            Z.of_nat (length ls) <= li).
  { intros sk li s' ls Hsk Hli Hsel.
    destruct (select_run self s w sk li Hwf Hk Hsk Hli)
      as (s2 & ls2 & Hsel2 & Hsf & _).
    rewrite Hsel in Hsel2. injection Hsel2 as _ Hls.
    destruct ls2 as [|l2 ls2]; [done|]. injection Hls as ->.
    apply Forall2_length in Hsf. rewrite Hsf, length_take. lia. }
  split; [intros s' ls Hsel; by apply (Hb skip limit s' ls)|]. split.
  - intros s' ls Hsel. by apply (Hb 0 100 s' ls).
  - intros Hlen.
    destruct (select_run self s w skip limit Hwf Hk Hs Hl)
      as (s2 & ls2 & Hsel2 & Hsf & _).
    rewrite drop_ge, take_nil in Hsf by lia. inversion Hsf; subst.
    by rewrite Hsel2.
Qed.

Lemma select_is_bounded_by_limit_witness :
  (select items (Some [("owner_id"%string, VInt 7)]) (Some 3) (Some 2)
     session3).2 = Ok None.
Proof.
  destruct (select_is_bounded_by_limit items session3
              [("owner_id"%string, VInt 7)] 3 2 wf_session3)
    as (_ & _ & H); [| lia | lia |].
  - refine (bool_decide_unpack _ _). vm_compute. exact I.
  - apply H. vm_compute. discriminate.
Defined.

Lemma stand_for_later m s s' ls rows :
  same_store s s' -> stand_for m s ls rows -> stand_for m s' ls rows.
Proof.
  intros (_ & _ & _ & _ & Hh) Hsf. unfold stand_for in *.
  eapply Forall2_impl; [exact Hsf|]. intros l r Hl. by apply Hh.
Qed.

(** X6. Two pages that follow each other make up the page that spans both:
    [select] with [skip=a, limit=b] and then with [skip=a+b, limit=c] hand
    back, one after the other, the instances that [skip=a, limit=b+c] stands
    for, with no row handed back twice and none left out. *)
Theorem select_pages_are_consecutive (self : CRUD) (s : Session)
    (w : list (string * val)) (a b c : Z) :
  wf (model self) s ->
  known_keys (model self) w ->
  0 <= a -> 0 <= b -> 0 <= c ->
  exists s1 ls1 s2 ls2,
    select self (Some w) (Some a) (Some b) s
    = (s1, Ok (match ls1 with [] => None | _ :: _ => Some ls1 end))
    /\ select self (Some w) (Some (a + b)) (Some c) s1
       = (s2, Ok (match ls2 with [] => None | _ :: _ => Some ls2 end))
    /\ stand_for (model self) s2 (ls1 ++ ls2)
         (take (Z.to_nat (b + c))
            (drop (Z.to_nat a) (List.filter (matches w) (table s)))).
Proof.
  intros Hwf Hk Ha Hb Hc.
  destruct (select_run self s w a b Hwf Hk Ha Hb)
    as (s1 & ls1 & Hsel1 & Hsf1 & Hss1).
  pose proof (select_wf self s (Some w) (Some a) (Some b) Hwf) as Hwf1.
  rewrite Hsel1 in Hwf1. simpl in Hwf1.
  destruct (select_run self s1 w (a + b) c Hwf1 Hk)
    as (s2 & ls2 & Hsel2 & Hsf2 & Hss2); [lia | lia |].
  exists s1, ls1, s2, ls2. split; [done|]. split; [done|].
  pose proof Hss1 as (Ht1 & _). rewrite Ht1 in Hsf2.
  rewrite Z2Nat.inj_add in Hsf2 by lia.
  rewrite !Z2Nat.inj_add by lia.
  rewrite <- take_take_drop, drop_drop.
  apply Forall2_app; [|done].
  by eapply stand_for_later.
Qed.

Lemma select_pages_are_consecutive_witness :
  exists s1 ls1 s2 ls2,
    select items (Some [("owner_id"%string, VInt 7)]) (Some 0) (Some 2) session3
    = (s1, Ok (match ls1 with [] => None | _ :: _ => Some ls1 end))
    /\ select items (Some [("owner_id"%string, VInt 7)]) (Some 2) (Some 2) s1
       = (s2, Ok (match ls2 with [] => None | _ :: _ => Some ls2 end))
    /\ stand_for Item s2 (ls1 ++ ls2) (table session3).
Proof.
  destruct (select_pages_are_consecutive items session3
              [("owner_id"%string, VInt 7)] 0 2 2 wf_session3)
    as (s1 & ls1 & s2 & ls2 & H1 & H2 & H3); [| lia | lia | lia |].
  - refine (bool_decide_unpack _ _). vm_compute. exact I.
  - exists s1, ls1, s2, ls2. split; [exact H1|]. split; [exact H2|].
    exact H3.
Defined.

(** ** What is read and counted after a create *)

(** The state [create] leaves when the store takes the row, with the
    identity map. *)
Lemma create_accepted self s entity e sk id :
  wf (model self) s ->
  heap s !! entity = Some e -> key e = None ->
  next_key (model self) e s = (sk, Ok id) ->
  let row := <[primary_key (model self) := id]> (model_dump (model self) e) in
  has_key (model self) id (table s) = false ->
  constraints (model self) row = true ->
  exists s',
    create self entity s = (s', Ok entity)
    /\ heap s' !! entity = Some {| attrs := row; key := Some id |}
    /\ table s' = table s ++ [row]
    /\ imap_lookup id (identity_map s') = Some entity
    /\ wf (model self) s'.
Proof.
  intros Hwf He Hke Hnk row Hhk Hcs.
  pose proof (create_run self s entity e Hwf He Hke) as Hrun.
  rewrite Hnk in Hrun. cbv zeta in Hrun. fold row in Hrun.
  rewrite Hhk, Hcs in Hrun. simpl in Hrun.
  destruct Hrun as (s' & Hc & Hh & Ht & _).
  exists s'. split; [done|]. split; [done|]. split; [done|].
  pose proof (create_wf self s entity Hwf) as Hwf'. rewrite Hc in Hwf'.
  split; [|done].
  (* the identity map, through the steps of [create] *)
  pose proof Hwf as (Hst & _).
  unfold create in Hc.
  rewrite (bind_ok _ _ _ _ _ (session_add_ok s entity e He)) in Hc.
  apply bind_inv_ok in Hc as (s2 & [] & Hcm & Hc).
  apply bind_inv_ok in Hc as (s3 & [] & Hrf & Hc).
  injection Hc as <-.
  apply session_commit_inv in Hcm as (sf & Hfl & ->).
  apply session_refresh_inv in Hrf as (e' & k' & r' & _ & _ & _ & ->); [|done].
  run. rewrite Hst in Hfl. simpl in Hfl.
  apply bind_inv_ok in Hfl as (sf' & [] & Hfl & [= <-]).
  revert Hfl. unfold flush_one. run. rewrite He. run. rewrite Hke.
  unfold insert_row. unfold bind at 1.
  rewrite (next_key_frame (model self) e s) by reflexivity.
  rewrite Hnk. run. fold row.
  rewrite Hhk, Hcs. simpl. run. intros [= <-]. run.
  unfold imap_prune. simpl.
  assert (Hrow : has_key (model self) id (table s ++ [row]) = true).
  { unfold has_key. apply bool_decide_eq_true.
    rewrite (find_row_app_new _ id (table s) row); [done| |].
    - by apply has_key_false.
    - apply field_insert_eq. }
  rewrite Hrow. unfold imap_lookup. simpl.
  by rewrite bool_decide_eq_true_2.
Qed.

(** X7. After a [create] that the store accepted, [read] with the identity
    of what was created hands back that very instance, holding the stored
    row; the session changes by the recorded call only. *)
Theorem create_then_read_same_instance (self : CRUD) (s : Session)
    (entity : loc) (e : Entity) (sk : Session) (id : val) :
  wf (model self) s ->
  heap s !! entity = Some e -> key e = None ->
  next_key (model self) e s = (sk, Ok id) ->
  has_key (model self) id (table s) = false ->
  constraints (model self)
    (<[primary_key (model self) := id]> (model_dump (model self) e)) = true ->
  exists s1,
    create self entity s = (s1, Ok entity)
    /\ read self id s1 = (set_log (log s1 ++ [CGet id]) s1, Ok (Some entity))
    /\ heap s1 !! entity
       = Some {| attrs := <[primary_key (model self) := id]>
                            (model_dump (model self) e);
                 key := Some id |}.
Proof.
  intros Hwf He Hke Hnk Hhk Hcs.
  destruct (create_accepted self s entity e sk id Hwf He Hke Hnk Hhk Hcs)
    as (s1 & Hc & Hh & _ & Him & _).
  exists s1. split; [done|]. split; [|done].
  unfold read, session_get. run. by rewrite Him.
Qed.

Lemma create_then_read_same_instance_witness :
  exists s1,
    create items 0%nat session0 = (s1, Ok 0%nat)
    /\ (read items (VInt 1) s1).2 = Ok (Some 0%nat).
Proof.
  destruct (create_then_read_same_instance items session0 0%nat
              (item VNone (VStr "Item title 1") (VStr "first") (VInt 7))
              (set_seq 2 session0) (VInt 1) wf_session0)
    as (s1 & H1 & H2 & _).
  - reflexivity.
  - reflexivity.
  - reflexivity.
  - vm_compute. reflexivity.
  - vm_compute. reflexivity.
  - exists s1. split; [exact H1|]. by rewrite H2.
Defined.

Lemma filter_snoc (P : Row -> bool) (t : list Row) (r : Row) :
  List.filter P (t ++ [r]) = List.filter P t ++ (if P r then [r] else []).
Proof. rewrite List.filter_app. simpl. by destruct (P r). Qed.

(** X8. A [create] that the store accepted raises [count] by one for every
    filter the new row matches and leaves it as it was for every other
    filter, so a count never goes down by creating. *)
Theorem create_raises_count_of_matching_filters (self : CRUD) (s : Session)
    (entity : loc) (e : Entity) (sk : Session) (id : val)
    (w : list (string * val)) :
  wf (model self) s ->
  known_keys (model self) w ->
  heap s !! entity = Some e -> key e = None ->
  next_key (model self) e s = (sk, Ok id) ->
  let row := <[primary_key (model self) := id]> (model_dump (model self) e) in
  has_key (model self) id (table s) = false ->
  constraints (model self) row = true ->
  exists s1 n,
    (count self (Some w) s).2 = Ok n
    /\ create self entity s = (s1, Ok entity)
    /\ (count self (Some w) s1).2
       = Ok (n + (if matches w row then 1 else 0)).
Proof.
  intros Hwf Hk He Hke Hnk row Hhk Hcs.
  destruct (create_accepted self s entity e sk id Hwf He Hke Hnk Hhk Hcs)
    as (s1 & Hc & _ & Ht & _ & Hwf1).
  pose proof Hwf as (Hst & _). pose proof Hwf1 as (Hst1 & _).
  exists s1, (Z.of_nat (length (List.filter (matches w) (table s)))).
  rewrite !count_run by done. simpl. split; [done|]. split; [done|].
  rewrite Ht, filter_snoc, length_app. fold row.
  destruct (matches w row); simpl; f_equal; lia.
Qed.

Lemma create_raises_count_of_matching_filters_witness :
  exists s1,
    (count items (Some [("owner_id"%string, VInt 7)]) session0).2 = Ok 0
    /\ create items 0%nat session0 = (s1, Ok 0%nat)
    /\ (count items (Some [("owner_id"%string, VInt 7)]) s1).2 = Ok 1.
Proof.
  destruct (create_raises_count_of_matching_filters items session0 0%nat
              (item VNone (VStr "Item title 1") (VStr "first") (VInt 7))
              (set_seq 2 session0) (VInt 1) [("owner_id"%string, VInt 7)]
              wf_session0)
    as (s1 & n & H1 & H2 & H3).
  - refine (bool_decide_unpack _ _). vm_compute. exact I.
  - reflexivity.
  - reflexivity.
  - reflexivity.
  - vm_compute. reflexivity.
  - vm_compute. reflexivity.
  - exists s1.
    assert (Hn : n = 0) by (vm_compute in H1; congruence). subst n.
    split; [exact H1|]. split; [exact H2|]. exact H3.
Defined.

(** ** An operation that raises changes no row *)

(** After the flush of a staged [add], the instance is persistent and its
    row is in the table. *)
Lemma flush_add_persistent m l s sf :
  flush_one m (SAdd l) s = (sf, Ok tt) ->
  exists o k r, heap sf !! l = Some o /\ key o = Some k
                /\ find_row m k (table sf) = Some r.
Proof.
  unfold flush_one. run.
  destruct (heap s !! l) as [o|] eqn:Ho; [|done]. run.
  destruct (key o) as [k|] eqn:Hk.
  - unfold update_row. run.
    destruct (find_row m k (table s)) as [old|] eqn:Hf; [|done].
    destruct (bool_decide (model_dump m o = old)).
    { intros [= <-]. by exists o, k, old. }
    set (row := model_dump m o). set (id' := row_key m row).
    destruct (bool_decide (id' = VNone)); [done|].
    destruct (negb (bool_decide (id' = k)) && has_key m id' (table s))
      eqn:Hfree; [done|].
    destruct (negb (constraints m row)); [done|].
    simpl. run. intros [= <-]. run.
    exists {| attrs := attrs o; key := Some id' |}, id', row.
    split; [by rewrite list_lookup_insert_eq by (by eapply lookup_lt_Some)|].
    split; [done|].
    apply (find_replace_row m k id' (table s) old row); [done | done |].
    apply andb_false_iff in Hfree as [Hfree|Hfree].
    + left. apply negb_false_iff in Hfree.
      by apply bool_decide_eq_true in Hfree.
    + right. by apply has_key_false.
  - unfold insert_row. unfold bind at 1.
    destruct (next_key m o s) as [sk [id|err]] eqn:Enk; [|done].
    apply next_key_inv in Enk as (Hh & _ & _ & _). run.
    destruct (has_key m id (table sk)) eqn:Hhk; [done|].
    destruct (negb (constraints m _)); [done|].
    simpl. run. intros [= <-]. run.
    eexists _, id, _. split.
    { rewrite list_lookup_insert_eq; [reflexivity|].
      rewrite Hh. by eapply lookup_lt_Some. }
    split; [done|]. apply find_row_app_new; [by apply has_key_false|].
    apply field_insert_eq.
Qed.

(** Commit and refresh of one staged [add]: if they raise, the table is the
    committed one again. *)
Lemma persist_raise {A} m s1 l (x : A) s' e :
  staged s1 = [SAdd l] -> keyed s1 ->
  (session_commit m >> session_refresh m (Some l) >> ret x) s1
  = (s', Raise e) ->
  table s' = committed s1 /\ committed s' = committed s1.
Proof.
  intros Hst Hk. unfold bind at 1.
  destruct (session_commit m s1) as [s2 [[]|e2]] eqn:Hc.
  - apply session_commit_inv in Hc as (sf & Hfl & ->).
    rewrite Hst in Hfl. simpl in Hfl.
    apply bind_inv_ok in Hfl as (sf' & [] & Hfl & [= <-]).
    apply flush_add_persistent in Hfl as (o & k & r & Ho & Hko & Hr).
    destruct (expire_all_deref m
                (set_identity_map (imap_prune m (table sf') (identity_map sf'))
                   (set_committed (table sf') (set_staged [] sf')))
                l o Ho) as (o' & Ho' & Hko').
    fold (committed_state m sf') in Ho'. rewrite Hko in Hko'.
    erewrite bind_ok; [done|].
    by eapply session_refresh_ok.
  - intros [= <- <-]. revert Hc. unfold session_commit, flush. run.
    destruct (flush_ops m (staged s1) _) as [sf [[]|e3]] eqn:Hfl; [done|].
    intros [= <- <-].
    apply flush_ops_inv in Hfl as (_ & Hcf & _); [|done].
    unfold rollback, expire_all. run. by rewrite Hcf.
Qed.

Lemma raise_keeps_table (self : CRUD) (s : Session) :
  wf (model self) s ->
  model_ok (model self) ->
  (forall entity s' e,
     create self entity s = (s', Raise e) ->
     table s' = table s /\ committed s' = table s)
  /\ (forall id entity s' e,
        update self id entity s = (s', Raise e) ->
        table s' = table s /\ committed s' = table s)
  /\ (forall id where_ session s' e,
        delete self id where_ session s = (s', Raise e) ->
        table s' = table s /\ committed s' = table s).
Proof.
  intros Hwf [_ Hnd]. pose proof Hwf as (Hst & Hc & _ & _ & Hsy).
  set (m := model self). split; [|split].
  - intros entity s' e. unfold create, session_add.
    unfold bind at 1. run.
    destruct (heap s !! entity) as [o|]; run;
      [|by intros [= <- <-]].
    intros H. apply persist_raise in H as [H1 H2]; run.
    + by rewrite H1, H2.
    + by rewrite Hst.
    + by apply synced_keyed in Hsy.
  - intros id entity s' e.
    destruct (find_row m id (table s)) as [r|] eqn:Hf.
    2:{ unfold update. erewrite bind_ok by (by apply read_absent).
        by intros [= <- <-]. }
    destruct (read_present self s id r Hwf Hf)
      as (s1 & l & Hread & Hl & (Ht1 & Hc1 & _) & _ & Hwf1).
    fold m in Hwf1. pose proof Hwf1 as (Hst1 & _ & _ & _ & Hsy1).
    unfold update. erewrite bind_ok by exact Hread. cbn beta iota.
    unfold bind at 1, deref.
    destruct (heap s1 !! entity) as [e2|];
      [|intros [= <- <-]; by rewrite Ht1, Hc1].
    fold m. erewrite bind_ok by (by apply sqlmodel_update_self).
    set (o := {| attrs := _; key := _ |}).
    set (s2 := set_heap (<[l := o]> (heap s1)) s1).
    assert (Hl2 : heap s2 !! l = Some o).
    { unfold s2. run.
      by rewrite list_lookup_insert_eq by (by eapply lookup_lt_Some). }
    erewrite bind_ok by (by eapply session_add_ok).
    intros H. apply persist_raise in H as [H1 H2].
    + change (committed (set_staged _ _)) with (committed s1) in H1, H2.
      by rewrite H1, H2, Hc1.
    + unfold s2. run. by rewrite Hst1.
    + eapply keyed_ext; [| |eapply (keyed_same_key s1 l _ o)];
        [done | done | by eapply synced_keyed | exact Hl | done].
  - intros id where_ session s' e. unfold delete.
    assert (Hid : forall s' e,
              (item <~ read self id;
               session_delete item >> session_commit m) s = (s', Raise e) ->
              table s' = table s /\ committed s' = table s).
    { clear s' e. intros s' e.
      destruct (find_row m id (table s)) as [r|] eqn:Hf.
      - destruct (read_present self s id r Hwf Hf)
          as (s1 & l & Hread & Hl & (Ht1 & Hc1 & _) & _ & Hwf1).
        fold m in Hwf1. destruct Hwf1 as (Hst1 & _ & _ & _ & Hsy1).
        erewrite bind_ok by exact Hread.
        unfold session_delete. run. rewrite Hl. cbn [key]. run.
        unfold session_commit, flush. run.
        destruct (flush_ops m _ _) as [sf [[]|e3]] eqn:Hfl; [done|].
        intros [= <- <-].
        apply flush_ops_inv in Hfl as (_ & Hcf & _);
          [|by apply synced_keyed in Hsy1].
        unfold rollback, expire_all. run. rewrite Hcf. run.
        by rewrite Hc1.
      - erewrite bind_ok by (by apply read_absent).
        unfold session_delete. run. by intros [= <- <-]. }
    assert (Hw : forall s' e,
              (query <~ add_where m (default [] where_) empty_query;
               session_exec m (Delete query) >> session_commit m) s
              = (s', Raise e) ->
              table s' = table s /\ committed s' = table s).
    { clear s' e. intros s' e. unfold bind at 1.
      pose proof (add_where_state m (default [] where_) empty_query s) as Hs.
      destruct (add_where _ _ _ s) as [s1 [q|e1]]; simpl in Hs; subst s1;
        [|by intros [= <- <-]].
      unfold session_exec.
      erewrite (bind_ok (bind _ _)).
      2:{ erewrite bind_ok by reflexivity.
          erewrite bind_ok by (by apply flush_clean). reflexivity. }
      unfold session_commit, flush. run. by rewrite Hst. }
    unfold bind at 1. fold m.
    destruct id;
      match goal with
      | |- context [match ?c s with _ => _ end] =>
          destruct (c s) as [s1 [[]|e1]] eqn:E; [done|];
          intros [= <- <-]; eauto
      end.
Qed.

Lemma pair_snd_eq {A B} (p : A * B) (b : B) : p.2 = b -> p = (p.1, b).
Proof. destruct p. simpl. by intros ->. Qed.

(** X9. When [create], [update] or [delete] raises, whatever it was given,
    no row has been added, changed or removed: the table is what it was, and
    committed. *)
Theorem raising_operation_changes_no_row (self : CRUD) (s : Session) :
  wf (model self) s ->
  model_ok (model self) ->
  (forall entity s' e,
     create self entity s = (s', Raise e) ->
     table s' = table s /\ committed s' = table s)
  /\ (forall id entity s' e,
        update self id entity s = (s', Raise e) ->
        table s' = table s /\ committed s' = table s)
  /\ (forall id where_ session s' e,
        delete self id where_ session s = (s', Raise e) ->
        table s' = table s /\ committed s' = table s).
Proof. apply raise_keeps_table. Qed.

Lemma raising_operation_changes_no_row_witness :
  (update items (VInt 2) 4%nat session3).2 = Raise IntegrityError
  /\ table (update items (VInt 2) 4%nat session3).1 = table session3.
Proof.
  assert (H : (update items (VInt 2) 4%nat session3).2 = Raise IntegrityError)
    by (vm_compute; reflexivity).
  split; [exact H|].
  destruct (raising_operation_changes_no_row items session3 wf_session3 Item_ok)
    as (_ & Hu & _).
  apply pair_snd_eq in H. by destruct (Hu _ _ _ _ H).
Defined.



(** X11. A [create] of an instance that carries the identity of a stored row
    is rejected by the store: [IntegrityError] is raised, and the table is
    what it was. *)
Theorem create_with_taken_identity_is_rejected (self : CRUD) (s : Session)
    (entity : loc) (e : Entity) :
  wf (model self) s ->
  model_ok (model self) ->
  heap s !! entity = Some e -> key e = None ->
  getattr e (primary_key (model self)) <> VNone ->
  has_key (model self) (getattr e (primary_key (model self))) (table s) = true ->
  exists s',
    create self entity s = (s', Raise IntegrityError)
    /\ table s' = table s /\ committed s' = table s.
Proof.
  intros Hwf Hok He Hke Hid Hhk.
  pose proof (create_run self s entity e Hwf He Hke) as Hrun.
  assert (Hnk : next_key (model self) e s
                = (s, Ok (getattr e (primary_key (model self))))).
  { unfold next_key. by destruct (getattr e (primary_key (model self))). }
  rewrite Hnk in Hrun. cbv zeta in Hrun. rewrite Hhk in Hrun. simpl in Hrun.
  destruct Hrun as (s' & Hc). exists s'. split; [done|].
  by destruct (raise_keeps_table self s Hwf Hok) as (H & _);
    destruct (H _ _ _ Hc).
Qed.

Lemma create_with_taken_identity_is_rejected_witness :
  exists s',
    create items 4%nat session3 = (s', Raise IntegrityError)
    /\ table s' = table session3.
Proof.
  destruct (create_with_taken_identity_is_rejected items session3 4%nat
              (item (VInt 1) (VStr "Item title 1 updated") VNone (VInt 7))
              wf_session3 Item_ok) as (s' & H1 & H2 & _).
  - vm_compute. reflexivity.
  - reflexivity.
  - discriminate.
  - vm_compute. reflexivity.
  - exists s'. split; [exact H1|exact H2].
Defined.


(** * The helpers for users *)

(** ** [get_user_by_email] *)

Lemma exec_select_all m s q :
  wf m s -> q_offset q = None -> q_limit q = None ->
  exists s' ls,
    session_exec m (Select q) s = (s', Ok (Instances ls))
    /\ stand_for m s' ls (List.filter (matches (q_where q)) (table s))
    /\ same_store s s'
    /\ wf m s'.
Proof.
  intros Hwf Ho Hl. pose proof Hwf as (Hst & _).
  set (s1 := set_log (log s ++ [CExec (Select q)]) s).
  assert (Hwf1 : wf m s1) by done.
  destruct (load_all_spec m (List.filter (matches (q_where q)) (table s)) s1 Hwf1)
    as (s2 & ls & Hls & Hsf & Hss & _ & Hwf2).
  { apply Forall_forall. intros r Hr.
    apply list_elem_of_In, filter_In in Hr. tauto. }
  exists s2, ls. split; [|split; [done|split; [|done]]].
  - unfold session_exec.
    erewrite bind_ok by reflexivity.
    erewrite bind_ok by (by apply flush_clean).
    erewrite bind_ok by reflexivity.
    erewrite bind_ok.
    2:{ unfold window, offset_rows, limit_rows. rewrite Ho, Hl. reflexivity. }
    fold s1. by erewrite bind_ok by exact Hls.
  - destruct Hss as (H1 & H2 & H3 & H4 & H5). by repeat split.
Qed.

Lemma head_filter_find {A} (P : A -> bool) (l : list A) :
  head (List.filter P l) = List.find P l.
Proof.
  induction l as [|x l IH]; [done|]. simpl. by destruct (P x).
Qed.

Lemma matches_email email (t : list Row) :
  List.filter (matches [("email"%string, email)]) t
  = List.filter (fun r => bool_decide (field r "email" = email)) t.
Proof.
  apply filter_ext. intros r. unfold matches. simpl. apply andb_true_r.
Qed.

Lemma get_user_by_email_run User s email :
  wf User s -> "email"%string ∈ fields User ->
  exists s' ls,
    get_user_by_email User email s = (s', Ok (head ls))
    /\ stand_for User s' ls
         (List.filter (fun r => bool_decide (field r "email" = email)) (table s))
    /\ same_store s s'
    /\ wf User s'.
Proof.
  intros Hwf Hf.
  set (q := stmt_where empty_query "email" email).
  destruct (exec_select_all User s q Hwf) as (s' & ls & Hex & Hsf & Hss & Hwf');
    [done | done |].
  exists s', ls. split; [|split; [|done]].
  - unfold get_user_by_email, column.
    rewrite bool_decide_eq_true_2 by done.
    erewrite bind_ok by reflexivity. fold q.
    erewrite bind_ok by exact Hex. reflexivity.
  - by rewrite <- matches_email.
Qed.

(** X13. [get_user_by_email] hands back the first stored user with that
    email, as an instance holding its row, and [None] when no user has it;
    the table is not changed. *)
Theorem get_user_by_email_is_first_match (User : Model) (s : Session)
    (email : val) :
  wf User s ->
  "email"%string ∈ fields User ->
  match List.find (fun r => bool_decide (field r "email" = email)) (table s) with
  | None =>
      exists s', get_user_by_email User email s = (s', Ok None)
                 /\ same_store s s'
  | Some r =>
      exists s' l,
        get_user_by_email User email s = (s', Ok (Some l))
        /\ heap s' !! l = Some {| attrs := r; key := Some (row_key User r) |}
        /\ same_store s s'
  end.
Proof.
  intros Hwf Hf.
  destruct (get_user_by_email_run User s email Hwf Hf)
    as (s' & ls & Hg & Hsf & Hss & _).
  rewrite <- head_filter_find.
  destruct (List.filter _ (table s)) as [|r rows].
  - inversion Hsf; subst. by exists s'.
  - inversion Hsf as [|l r' ls' rows' Hl Hrest]; subst. by exists s', l.
Qed.

Lemma get_user_by_email_is_first_match_witness :
  (exists s', get_user_by_email UserModel (VStr "eve@example.com") users0
              = (s', Ok None))
  /\ (exists s' l,
        get_user_by_email UserModel (VStr "bob@example.com") users0
        = (s', Ok (Some l))
        /\ heap s' !! l
           = Some {| attrs := user_row (VInt 2) (VStr "bob@example.com")
                                (VStr "hashed:pw") VNone;
                     key := Some (VInt 2) |}).
Proof.
  assert (Hwf : wf UserModel users0)
    by (refine (bool_decide_unpack _ _); vm_compute; exact I).
  assert (Hf : "email"%string ∈ fields UserModel)
    by (refine (bool_decide_unpack _ _); vm_compute; exact I).
  split.
  - pose proof (get_user_by_email_is_first_match UserModel users0
                  (VStr "eve@example.com") Hwf Hf) as H.
    destruct H as (s' & H & _). by exists s'.
  - pose proof (get_user_by_email_is_first_match UserModel users0
                  (VStr "bob@example.com") Hwf Hf) as H.
    destruct H as (s' & l & H1 & H2 & _). exists s', l. split; [exact H1|].
    exact H2.
Defined.

(** ** [authenticate] *)

Lemma authenticate_run User verify_password s email password :
  wf User s -> "email"%string ∈ fields User ->
  match List.find (fun r => bool_decide (field r "email" = email)) (table s) with
  | None =>
      exists s', authenticate User verify_password email password s
                 = (s', Ok None)
                 /\ same_store s s'
  | Some r =>
      exists s' l,
        authenticate User verify_password email password s
        = (s', Ok (if verify_password password (field r "hashed_password")
                   then Some l else None))
        /\ heap s' !! l = Some {| attrs := r; key := Some (row_key User r) |}
        /\ same_store s s'
  end.
Proof.
  intros Hwf Hf.
  pose proof (get_user_by_email_run User s email Hwf Hf)
    as (s' & ls & Hg & Hsf & Hss & _).
  rewrite <- head_filter_find.
  destruct (List.filter _ (table s)) as [|r rows].
  - inversion Hsf; subst. exists s'. split; [|done].
    unfold authenticate. by erewrite bind_ok by exact Hg.
  - inversion Hsf as [|l r' ls' rows' Hl Hrest]; subst.
    exists s', l. split; [|done].
    unfold authenticate. erewrite bind_ok by exact Hg. simpl.
    erewrite bind_ok by (unfold deref; rewrite Hl; reflexivity).
    unfold getattr. simpl.
    by destruct (verify_password password (field r "hashed_password")).
Qed.

(** X14. [authenticate] hands back the first stored user with the given
    email when the password verifies against the hash stored for that user,
    and [None] when no user has the email or the password does not verify;
    it changes no row. So whatever it hands back is a stored user with that
    email whose hash verifies the password. *)
Theorem authenticate_checks_email_and_password (User : Model)
    (verify_password : val -> val -> bool) (s : Session)
    (email password : val) :
  wf User s ->
  ("email"%string ∈ fields User ->
   match List.find (fun r => bool_decide (field r "email" = email)) (table s)
   with
   | None =>
       exists s', authenticate User verify_password email password s
                  = (s', Ok None)
                  /\ same_store s s'
   | Some r =>
       exists s' l,
         authenticate User verify_password email password s
         = (s', Ok (if verify_password password (field r "hashed_password")
                    then Some l else None))
         /\ heap s' !! l = Some {| attrs := r; key := Some (row_key User r) |}
         /\ same_store s s'
   end)
  /\ (forall s' l,
        authenticate User verify_password email password s = (s', Ok (Some l)) ->
        exists o,
          heap s' !! l = Some o
          /\ getattr o "email" = email
          /\ verify_password password (getattr o "hashed_password") = true
          /\ In (attrs o) (table s)
          /\ table s' = table s).
Proof.
  intros Hwf. split; [by apply authenticate_run|].
  intros s' l Ha.
  destruct (decide ("email"%string ∈ fields User)) as [Hf|Hf].
  2:{ unfold authenticate, get_user_by_email, column in Ha.
      rewrite bool_decide_eq_false_2 in Ha by done. discriminate. }
  pose proof (authenticate_run User verify_password s email password Hwf Hf)
    as Hrun.
  destruct (List.find _ (table s)) as [r|] eqn:Hfind.
  - destruct Hrun as (s1 & l1 & Hrun & Hl & Hss).
    rewrite Hrun in Ha.
    destruct (verify_password password (field r "hashed_password")) eqn:Hv;
      [|discriminate].
    injection Ha as <- <-. apply find_some in Hfind as [Hin He].
    apply bool_decide_eq_true in He.
    eexists. split; [exact Hl|]. unfold getattr. simpl.
    split; [done|]. split; [done|]. split; [done|]. by destruct Hss.
  - destruct Hrun as (s1 & Hrun & _). rewrite Hrun in Ha. discriminate.
Qed.

Lemma authenticate_checks_email_and_password_witness :
  (exists s' l,
     authenticate UserModel mark_verify (VStr "bob@example.com") (VStr "pw")
       users0 = (s', Ok (Some l)))
  /\ (exists s',
        authenticate UserModel mark_verify (VStr "bob@example.com")
          (VStr "guess") users0 = (s', Ok None)).
Proof.
  assert (Hwf : wf UserModel users0)
    by (refine (bool_decide_unpack _ _); vm_compute; exact I).
  assert (Hf : "email"%string ∈ fields UserModel)
    by (refine (bool_decide_unpack _ _); vm_compute; exact I).
  split.
  - destruct (authenticate_checks_email_and_password UserModel mark_verify
                users0 (VStr "bob@example.com") (VStr "pw") Hwf) as [H _].
    destruct (H Hf) as (s' & l & H1 & _). by exists s', l.
  - destruct (authenticate_checks_email_and_password UserModel mark_verify
                users0 (VStr "bob@example.com") (VStr "guess") Hwf) as [H _].
    destruct (H Hf) as (s' & l & H1 & _). by exists s'.
Defined.

(** ** [sqlmodel_update] from a dict *)

Lemma patch_lookup_other m (items : list (string * val)) : forall (a : Row) f,
  f ∉ fields m \/ f ∉ items.*1 ->
  foldl (fun a kv => if bool_decide (kv.1 ∈ fields m)
                     then <[kv.1 := kv.2]> a else a) a items !! f
  = a !! f.
Proof.
  induction items as [|[k v] items IH]; intros a f Hf; [done|].
  cbn [foldl fst snd]. rewrite IH.
  - destruct (bool_decide (k ∈ fields m)) eqn:Hk; [|done].
    apply bool_decide_eq_true in Hk. rewrite lookup_insert_ne; [done|].
    intros ->. destruct Hf as [Hf|Hf]; [done|].
    apply Hf. rewrite fmap_cons. apply list_elem_of_here.
  - destruct Hf as [Hf|Hf]; [by left|right].
    intros H. apply Hf. rewrite fmap_cons. by apply list_elem_of_further.
Qed.

Lemma patch_lookup_set m (items : list (string * val)) : forall (a : Row) f v,
  NoDup items.*1 -> (f, v) ∈ items -> f ∈ fields m ->
  foldl (fun a kv => if bool_decide (kv.1 ∈ fields m)
                     then <[kv.1 := kv.2]> a else a) a items !! f
  = Some v.
Proof.
  induction items as [|[k v0] items IH]; intros a f v Hnd Hin Hf.
  - by apply not_elem_of_nil in Hin.
  - rewrite fmap_cons in Hnd. apply NoDup_cons in Hnd as [Hk Hnd].
    cbn [foldl fst snd]. apply elem_of_cons in Hin as [[= -> ->]|Hin].
    + rewrite patch_lookup_other by (by right).
      rewrite bool_decide_eq_true_2 by done. apply lookup_insert_eq.
    + by apply IH.
Qed.

(** The attributes an instance has after the loop over the dict [d]. *)
Lemma patch_lookup m (d a : Row) f :
  foldl (fun a kv => if bool_decide (kv.1 ∈ fields m)
                     then <[kv.1 := kv.2]> a else a) a (map_to_list d) !! f
  = if decide (f ∈ fields m) then (d ∪ a) !! f else a !! f.
Proof.
  destruct (decide (f ∈ fields m)) as [Hf|Hf].
  - rewrite lookup_union. destruct (d !! f) as [v|] eqn:Hd.
    + rewrite (patch_lookup_set m _ a f v).
      * by destruct (a !! f).
      * apply NoDup_fst_map_to_list.
      * by apply elem_of_map_to_list.
      * done.
    + rewrite patch_lookup_other; [by destruct (a !! f)|]. right.
      intros Hin. apply list_elem_of_fmap in Hin as ([k v] & -> & Hin).
      apply elem_of_map_to_list in Hin. simpl in Hd. congruence.
  - apply patch_lookup_other. by left.
Qed.

Lemma update_from_items_run m l items : forall s o,
  heap s !! l = Some o ->
  update_from_items m l items s
  = (set_heap (<[l := {| attrs :=
                           foldl (fun a kv => if bool_decide (kv.1 ∈ fields m)
                                              then <[kv.1 := kv.2]> a else a)
                                 (attrs o) items;
                         key := key o |}]> (heap s)) s, Ok tt).
Proof.
  induction items as [|[k v] items IH]; intros s o Ho.
  - simpl. unfold ret. f_equal. symmetry. apply set_heap_id.
    rewrite Ho. by destruct o.
  - cbn [update_from_items foldl fst snd].
    destruct (bool_decide (k ∈ fields m)).
    + unfold set_attribute. run. rewrite Ho. run.
      erewrite (IH _ (setattr o k v)).
      * run. by rewrite list_insert_insert_eq.
      * run. by rewrite list_lookup_insert_eq by (by eapply lookup_lt_Some).
    + run. by rewrite (IH s o Ho).
Qed.

(** ** Add, commit and refresh of a changed instance *)

Lemma persist_ok m s2 l o k r :
  staged s2 = [] ->
  NoDup (row_key m <$> table s2) ->
  heap s2 !! l = Some o -> key o = Some k ->
  find_row m k (table s2) = Some r ->
  let row := model_dump m o in
  row_key m row <> VNone ->
  row_key m row = k \/ has_key m (row_key m row) (table s2) = false ->
  constraints m row = true ->
  exists s',
    (session_add (Some l) >> session_commit m >>
     session_refresh m (Some l) >> ret l) s2 = (s', Ok l)
    /\ heap s' !! l = Some {| attrs := row; key := Some (row_key m row) |}
    /\ table s' = replace_row m k row (table s2)
    /\ committed s' = table s'.
Proof.
  intros Hst Hnd Ho Hk Hf row Hnn Hfree Hcs.
  set (s3 := set_staged (staged s2 ++ [SAdd l])
               (set_log (log s2 ++ [CAdd (Some l)]) s2)).
  assert (Hadd : session_add (Some l) s2 = (s3, Ok tt))
    by (by eapply session_add_ok).
  destruct (flush_update m (set_log (log s3 ++ [CCommit]) s3) l o k r)
    as (s4 & Hfl & Ht4 & (o4 & Ho4 & Hk4) & _); try done.
  assert (Hcommit : session_commit m s3 = (committed_state m s4, Ok tt)).
  { apply session_commit_ok. unfold s3 at 1. run. by rewrite Hst. }
  fold row in Ht4, Hk4.
  destruct (expire_all_deref m
              (set_identity_map (imap_prune m (table s4) (identity_map s4))
                 (set_committed (table s4) (set_staged [] s4)))
              l o4 Ho4) as (o5 & Ho5 & Hk5).
  fold (committed_state m s4) in Ho5. rewrite Hk4 in Hk5.
  assert (Hrow : find_row m (row_key m row) (table (committed_state m s4))
                 = Some row).
  { unfold committed_state, expire_all. run. rewrite Ht4. run.
    apply (find_replace_row m k _ (table s2) r row); [done | done |].
    destruct Hfree as [?|Hfree]; [by left|right]. by apply has_key_false. }
  eexists. split.
  - erewrite bind_ok by exact Hadd.
    erewrite bind_ok by exact Hcommit.
    erewrite bind_ok; [reflexivity|].
    by eapply session_refresh_ok.
  - run. split.
    { by rewrite list_lookup_insert_eq by (by eapply lookup_lt_Some). }
    unfold committed_state, expire_all. run. by rewrite Ht4.
Qed.

Lemma persist_wf m s2 l o :
  table_ok m (table s2) -> table_ok m (committed s2) -> keyed s2 ->
  heap s2 !! l = Some o ->
  wf m ((session_add (Some l) >> session_commit m >>
         session_refresh m (Some l) >> ret l) s2).1.
Proof.
  intros Ht Hc Hk Ho.
  rewrite bind_fst, (session_add_ok s2 l o Ho).
  set (s3 := set_staged _ _).
  assert (Hwf4 : wf m (session_commit m s3).1)
    by (by apply session_commit_wf).
  rewrite bind_fst.
  destruct (session_commit m s3) as [s4 [[]|err]]; [|done].
  rewrite bind_fst. simpl in Hwf4.
  pose proof (session_refresh_wf _ _ (Some l) Hwf4) as Hwf5.
  by destruct (session_refresh m (Some l) s4) as [s5 [[]|err]].
Qed.

(** ** [update_user] *)

Lemma update_user_run User get_password_hash s db_user user_in ui r k :
  wf User s ->
  heap s !! db_user = Some {| attrs := r; key := Some k |} ->
  find_row User k (table s) = Some r ->
  heap s !! user_in = Some ui ->
  let user_data := attrs ui in
  let extra_data : Row :=
    match user_data !! "password"%string with
    | Some password => {[ "hashed_password"%string := get_password_hash password ]}
    | None => ∅
    end in
  let row' := model_dump User
                {| attrs := (extra_data ∪ user_data) ∪ r; key := Some k |} in
  row_key User row' <> VNone ->
  row_key User row' = k \/ has_key User (row_key User row') (table s) = false ->
  constraints User row' = true ->
  exists s',
    update_user User get_password_hash db_user user_in s = (s', Ok db_user)
    /\ heap s' !! db_user
       = Some {| attrs := row'; key := Some (row_key User row') |}
    /\ table s' = replace_row User k row' (table s)
    /\ committed s' = table s'
    /\ wf User s'.
Proof.
  intros Hwf Hdb Hf Hui user_data extra_data row' Hnn Hfree Hcs.
  pose proof Hwf as (Hst & Hc & Hnd & Hn & Hsy).
  set (d := extra_data ∪ user_data).
  set (o := {| attrs := foldl (fun a kv => if bool_decide (kv.1 ∈ fields User)
                                           then <[kv.1 := kv.2]> a else a)
                              r (map_to_list d);
               key := Some k |}).
  set (s2 := set_heap (<[db_user := o]> (heap s)) s).
  assert (Hupd : sqlmodel_update_dict User db_user user_data extra_data s
                 = (s2, Ok db_user)).
  { unfold sqlmodel_update_dict. fold d.
    by erewrite bind_ok by (by apply update_from_items_run). }
  assert (Ho : heap s2 !! db_user = Some o).
  { unfold s2. run.
    by rewrite list_lookup_insert_eq by (by eapply lookup_lt_Some). }
  assert (Hdump : model_dump User o = row').
  { apply model_dump_ext. intros f Hin. unfold getattr, field, o. simpl.
    rewrite patch_lookup. by rewrite decide_True. }
  destruct (persist_ok User s2 db_user o k r) as (s' & Hp & Hh & Ht & Hcm);
    try (rewrite Hdump); try done.
  rewrite Hdump in Hh, Ht.
  exists s'. split; [|split; [done|split; [done|split; [done|]]]].
  - unfold update_user.
    erewrite bind_ok by (unfold deref; rewrite Hui; reflexivity).
    unfold model_dump_exclude_unset. fold user_data extra_data.
    by erewrite bind_ok by exact Hupd.
  - assert (Hwf' : wf User
              ((session_add (Some db_user) >> session_commit User >>
                session_refresh User (Some db_user) >> ret db_user) s2).1).
    { eapply persist_wf; [| | |exact Ho].
      - by split.
      - change (committed s2) with (committed s). rewrite Hc. by split.
      - eapply (keyed_same_key s db_user _ o);
          [by eapply synced_keyed | exact Hdb | done]. }
    by rewrite Hp in Hwf'.
Qed.

(** X15. [update_user] is a patch: of the fields of the user, those that
    [user_in] sets take its values and the others keep the values of the
    stored row. A password that is set is not stored; its hash replaces the
    stored hash. When the store takes the row, it replaces the one of the
    user, the change is committed and the user, reloaded, is returned. *)
Theorem update_user_patches_set_fields (User : Model)
    (get_password_hash : val -> val) (s : Session) (db_user user_in : loc)
    (ui : Entity) (r : Row) (k : val) :
  wf User s ->
  heap s !! db_user = Some {| attrs := r; key := Some k |} ->
  find_row User k (table s) = Some r ->
  heap s !! user_in = Some ui ->
  let user_data := attrs ui in
  let extra_data : Row :=
    match user_data !! "password"%string with
    | Some password => {[ "hashed_password"%string := get_password_hash password ]}
    | None => ∅
    end in
  let row' := model_dump User
                {| attrs := (extra_data ∪ user_data) ∪ r; key := Some k |} in
  row_key User row' <> VNone ->
  row_key User row' = k \/ has_key User (row_key User row') (table s) = false ->
  constraints User row' = true ->
  (exists s',
     update_user User get_password_hash db_user user_in s = (s', Ok db_user)
     /\ heap s' !! db_user
        = Some {| attrs := row'; key := Some (row_key User row') |}
     /\ table s' = replace_row User k row' (table s)
     /\ committed s' = table s')
  /\ (forall f, f ∈ fields User -> user_data !! f = None ->
        f <> "hashed_password"%string \/ user_data !! "password"%string = None ->
        field row' f = field r f)
  /\ (forall f v, f ∈ fields User -> user_data !! f = Some v ->
        f <> "hashed_password"%string \/ user_data !! "password"%string = None ->
        field row' f = v)
  /\ (forall p, "hashed_password"%string ∈ fields User ->
        user_data !! "password"%string = Some p ->
        field row' "hashed_password" = get_password_hash p)
  /\ ("password"%string ∉ fields User -> row' !! "password"%string = None).
Proof.
  intros Hwf Hdb Hf Hui user_data extra_data row' Hnn Hfree Hcs.
  split.
  { destruct (update_user_run User get_password_hash s db_user user_in ui r k
                Hwf Hdb Hf Hui Hnn Hfree Hcs) as (s' & H1 & H2 & H3 & H4 & _).
    by exists s'. }
  assert (Hextra : forall f,
            f <> "hashed_password"%string \/ user_data !! "password"%string = None ->
            extra_data !! f = None).
  { intros f [Hne|Hp]; unfold extra_data.
    - destruct (user_data !! "password"%string); [|apply lookup_empty].
      by rewrite lookup_singleton_ne.
    - rewrite Hp. apply lookup_empty. }
  assert (Hrow : forall f, f ∈ fields User ->
            field row' f = default VNone (((extra_data ∪ user_data) ∪ r) !! f)).
  { intros f Hin. unfold row'. by rewrite field_model_dump. }
  split; [|split; [|split]].
  - intros f Hin Hu Hor. rewrite Hrow by done.
    rewrite !lookup_union, (Hextra f Hor), Hu. unfold field.
    by destruct (r !! f).
  - intros f v Hin Hu Hor. rewrite Hrow by done.
    rewrite !lookup_union, (Hextra f Hor), Hu. by destruct (r !! f).
  - intros p Hin Hp. rewrite Hrow by done. unfold extra_data.
    rewrite Hp, !lookup_union, lookup_singleton_eq.
    by destruct (user_data !! "hashed_password"%string), (r !! "hashed_password"%string).
  - intros Hnp. unfold row'. rewrite model_dump_lookup. by rewrite decide_False.
Qed.

Lemma update_user_patches_set_fields_witness :
  exists s' r',
    update_user UserModel mark_hash 0%nat 1%nat users0 = (s', Ok 0%nat)
    /\ find_row UserModel (VInt 1) (table s') = Some r'
    /\ field r' "email" = VStr "ann@example.com"
    /\ field r' "full_name" = VStr "Ann B"
    /\ field r' "hashed_password" = VStr "hashed:s3cret"
    /\ r' !! "password"%string = None.
Proof.
  assert (Hwf : wf UserModel users0)
    by (refine (bool_decide_unpack _ _); vm_compute; exact I).
  destruct (update_user_patches_set_fields UserModel mark_hash users0
              0%nat 1%nat
              {| attrs := {[ "password"%string := VStr "s3cret";
                             "full_name"%string := VStr "Ann B" ]};
                 key := None |}
              (user_row (VInt 1) (VStr "ann@example.com") (VStr "hashed:old")
                 (VStr "Ann"))
              (VInt 1) Hwf)
    as ((s' & H1 & _ & H3 & _) & _).
  - reflexivity.
  - vm_compute. reflexivity.
  - reflexivity.
  - vm_compute. discriminate.
  - left. vm_compute. reflexivity.
  - vm_compute. reflexivity.
  - eexists s', _. split; [exact H1|]. rewrite H3.
    split; [vm_compute; reflexivity|]. vm_compute. repeat split.
Defined.

(** ** A password set by [update_user] authenticates *)

Lemma find_replaced (P : Row -> bool) m k row' t r :
  find_row m k t = Some r ->
  P row' = true ->
  (forall r0, In r0 t -> row_key m r0 <> k -> P r0 = false) ->
  List.find P (replace_row m k row' t) = Some row'.
Proof.
  unfold find_row, replace_row. induction t as [|r0 t IH]; [done|].
  intros Hf HP Hothers. simpl in *.
  destruct (decide (row_key m r0 = k)) as [E|E].
  - rewrite (bool_decide_eq_true_2 _ E). by rewrite HP.
  - rewrite (bool_decide_eq_false_2 _ E) in Hf |- *.
    rewrite (Hothers r0) by auto. apply IH; auto.
Qed.

(** X16. After [update_user] has set a password, [authenticate] with the
    email of the user and that password hands back the user, provided the
    check of the password functions accepts a password against its own hash
    and no other stored user has that email. *)
Theorem update_user_then_authenticate (User : Model)
    (get_password_hash : val -> val) (verify_password : val -> val -> bool)
    (s : Session) (db_user user_in : loc) (ui : Entity) (r : Row) (k p : val) :
  wf User s ->
  "email"%string ∈ fields User ->
  "hashed_password"%string ∈ fields User ->
  heap s !! db_user = Some {| attrs := r; key := Some k |} ->
  find_row User k (table s) = Some r ->
  heap s !! user_in = Some ui ->
  attrs ui !! "password"%string = Some p ->
  verify_password p (get_password_hash p) = true ->
  let row' := model_dump User
                {| attrs := ({[ "hashed_password"%string := get_password_hash p ]}
                             ∪ attrs ui) ∪ r;
                   key := Some k |} in
  row_key User row' <> VNone ->
  row_key User row' = k \/ has_key User (row_key User row') (table s) = false ->
  constraints User row' = true ->
  (forall r0, In r0 (table s) -> row_key User r0 <> k ->
              field r0 "email" <> field row' "email") ->
  exists s1 s2 l,
    update_user User get_password_hash db_user user_in s = (s1, Ok db_user)
    /\ authenticate User verify_password (field row' "email") p s1
       = (s2, Ok (Some l))
    /\ heap s2 !! l = Some {| attrs := row'; key := Some (row_key User row') |}.
Proof.
  intros Hwf Hem Hhp Hdb Hf Hui Hp Hv row' Hnn Hfree Hcs Huniq.
  pose proof (update_user_run User get_password_hash s db_user user_in ui r k
                Hwf Hdb Hf Hui) as Hrun.
  cbv zeta in Hrun. rewrite Hp in Hrun. fold row' in Hrun.
  destruct (Hrun Hnn Hfree Hcs) as (s1 & Hu & _ & Ht & _ & Hwf1).
  pose proof (authenticate_run User verify_password s1 (field row' "email") p
                Hwf1 Hem) as Ha.
  rewrite Ht in Ha.
  rewrite (find_replaced _ User k row' (table s) r) in Ha.
  - destruct Ha as (s2 & l & Ha & Hl & _).
    exists s1, s2, l. split; [done|]. split; [|done].
    rewrite Ha. replace (field row' "hashed_password") with (get_password_hash p).
    + by rewrite Hv.
    + unfold row'. rewrite field_model_dump by done.
      unfold getattr, field. simpl.
      rewrite !lookup_union, lookup_singleton_eq.
      by destruct (attrs ui !! "hashed_password"%string),
                  (r !! "hashed_password"%string).
  - done.
  - by apply bool_decide_eq_true.
  - intros r0 Hin Hk. apply bool_decide_eq_false. by apply Huniq.
Qed.

Lemma update_user_then_authenticate_witness :
  exists s1 s2 l,
    update_user UserModel mark_hash 0%nat 1%nat users0 = (s1, Ok 0%nat)
    /\ authenticate UserModel mark_verify (VStr "ann@example.com")
         (VStr "s3cret") s1 = (s2, Ok (Some l)).
Proof.
  assert (Hwf : wf UserModel users0)
    by (refine (bool_decide_unpack _ _); vm_compute; exact I).
  destruct (update_user_then_authenticate UserModel mark_hash mark_verify
              users0 0%nat 1%nat
              {| attrs := {[ "password"%string := VStr "s3cret";
                             "full_name"%string := VStr "Ann B" ]};
                 key := None |}
              (user_row (VInt 1) (VStr "ann@example.com") (VStr "hashed:old")
                 (VStr "Ann"))
              (VInt 1) (VStr "s3cret") Hwf)
    as (s1 & s2 & l & H1 & H2 & _).
  - refine (bool_decide_unpack _ _). vm_compute. exact I.
  - refine (bool_decide_unpack _ _). vm_compute. exact I.
  - reflexivity.
  - vm_compute. reflexivity.
  - reflexivity.
  - reflexivity.
  - vm_compute. reflexivity.
  - vm_compute. discriminate.
  - left. vm_compute. reflexivity.
  - vm_compute. reflexivity.
  - intros r0 Hin Hk. simpl in Hin.
    destruct Hin as [<-|[<-|[]]]; [by destruct Hk|]. vm_compute. discriminate.
  - exists s1, s2, l. split; [exact H1|exact H2].
Defined.

(** * Further compositions of the repository *)

Lemma find_row_replaced_away m id id' row' t :
  row_key m row' = id' -> id' <> id ->
  find_row m id (replace_row m id row' t) = None.
Proof.
  intros Hk Hne. apply find_row_None. intros r Hr E.
  unfold replace_row in Hr. apply in_map_iff in Hr as (r0 & Hr0 & _).
  destruct (bool_decide (row_key m r0 = id)) eqn:Hb; subst r.
  - congruence.
  - by apply bool_decide_eq_false in Hb.
Qed.

(** X17. After an [update] that the store accepted, [read] with the identity
    that [e2] carries hands back an instance holding the updated row; and
    when that identity differs from the [id] the update was called with,
    [read] with the old [id] finds nothing any more. *)
Theorem update_then_read (self : CRUD) (s : Session) (id : val)
    (entity : loc) (e2 : Entity) (r : Row) :
  wf (model self) s ->
  model_ok (model self) ->
  find_row (model self) id (table s) = Some r ->
  heap s !! entity = Some e2 ->
  let row' := model_dump (model self) e2 in
  let id' := row_key (model self) row' in
  id' <> VNone ->
  id' = id \/ has_key (model self) id' (table s) = false ->
  constraints (model self) row' = true ->
  exists s1 l,
    update self id entity s = (s1, Ok l)
    /\ (exists s2 l2,
          read self id' s1 = (s2, Ok (Some l2))
          /\ heap s2 !! l2 = Some {| attrs := row'; key := Some id' |})
    /\ (id' <> id ->
        read self id s1 = (set_log (log s1 ++ [CGet id]) s1, Ok None)).
Proof.
  intros Hwf Hok Hf He row' id' Hnn Hfree Hcs.
  destruct (update_run self s id entity e2 r Hwf Hok Hf He Hnn Hfree Hcs)
    as (s1 & l & Hu & _ & Ht & _).
  pose proof (update_wf self s id entity Hwf Hok) as Hwf1.
  rewrite Hu in Hwf1. simpl in Hwf1.
  exists s1, l. split; [done|]. split.
  - destruct (read_present self s1 id' row' Hwf1) as (s2 & l2 & Hr & Hl & _).
    + rewrite Ht. apply (find_replace_row _ id id' _ r); [done | done |].
      destruct Hfree as [?|Hfree]; [by left|right]. by apply has_key_false.
    + by exists s2, l2.
  - intros Hne. apply read_absent; [done|]. rewrite Ht.
    by apply (find_row_replaced_away _ id id').
Qed.

Lemma update_then_read_witness :
  exists s1 l,
    update items (VInt 1) 3%nat session3 = (s1, Ok l)
    /\ (exists s2 l2, read items (VInt 5) s1 = (s2, Ok (Some l2)))
    /\ (read items (VInt 1) s1).2 = Ok None.
Proof.
  destruct (update_then_read items session3 (VInt 1) 3%nat
              (item (VInt 5) (VStr "Original title updated") VNone (VInt 7))
              (model_dump Item
                 (item (VInt 1) (VStr "Item title 1") (VStr "first") (VInt 7)))
              wf_session3 Item_ok)
    as (s1 & l & H1 & (s2 & l2 & H2 & _) & H3).
  - vm_compute. reflexivity.
  - reflexivity.
  - discriminate.
  - right. vm_compute. reflexivity.
  - reflexivity.
  - exists s1, l. split; [exact H1|]. split; [by exists s2, l2|].
    rewrite H3; [reflexivity|discriminate].
Defined.

(** X18. [count] and [select] agree: with no offset and a limit that is not
    below the count, [select] hands back as many instances as [count]
    counts, and the absent marker exactly when the count is 0. *)
Theorem count_agrees_with_select (self : CRUD) (s : Session)
    (w : list (string * val)) (limit : Z) :
  wf (model self) s ->
  known_keys (model self) w ->
  Z.of_nat (length (List.filter (matches w) (table s))) <= limit ->
  exists n s' ls,
    (count self (Some w) s).2 = Ok n
    /\ select self (Some w) (Some 0) (Some limit) s
       = (s', Ok (match ls with [] => None | _ :: _ => Some ls end))
    /\ Z.of_nat (length ls) = n
    /\ (n = 0 <-> ls = []).
Proof.
  intros Hwf Hk Hlim. pose proof Hwf as (Hst & _).
  destruct (select_run self s w 0 limit Hwf Hk) as (s' & ls & Hsel & Hsf & _);
    [lia | lia |].
  exists (Z.of_nat (length (List.filter (matches w) (table s)))), s', ls.
  rewrite count_run by done. split; [done|]. split; [done|].
  apply Forall2_length in Hsf. rewrite drop_0, take_ge in Hsf by lia.
  split; [by rewrite Hsf|]. rewrite <- Hsf.
  split; [intros H; apply length_zero_iff_nil; lia | by intros ->].
Qed.

Lemma count_agrees_with_select_witness :
  exists s' ls,
    (count items (Some [("owner_id"%string, VInt 7)]) session3).2 = Ok 3
    /\ select items (Some [("owner_id"%string, VInt 7)]) (Some 0) (Some 100)
         session3
       = (s', Ok (Some ls))
    /\ length ls = 3%nat.
Proof.
  destruct (count_agrees_with_select items session3
              [("owner_id"%string, VInt 7)] 100 wf_session3)
    as (n & s' & ls & H1 & H2 & H3 & _).
  - refine (bool_decide_unpack _ _). vm_compute. exact I.
  - vm_compute. discriminate.
  - assert (Hn : n = 3) by (vm_compute in H1; congruence).
    rewrite Hn in H1, H3.
    exists s', ls. split; [exact H1|].
    destruct ls as [|l ls]; [discriminate H3|].
    split; [exact H2|]. lia.
Defined.
